(** * strftime: formatting and parsing of times by format strings

    A shallow embedding of the Go package [strftime] (format.go, locale.go,
    parse.go) and the properties of its specification.  The repository
    holds two implementations of [StrftimeL]: the first works on runes and
    knows the POSIX prefixes in both spellings ([Posix]), the second works on
    bytes and knows the GNU padding modifiers ([Gnu]).

    Conventions of the embedding.
    - A Go [string] is a sequence of bytes: Rocq's [string], whose characters
      ([ascii]) are 8-bit bytes.  [len(s)] is [String.length s], [s[j]] is
      [String.get j s] and [s[a:b]] is [slice s a b].
    - A Go [int] is a [Z].  Every integer the package computes is a sum or a
      product of a few numbers read from at most four decimal characters or
      delivered by the calendar, so no 64-bit wrap-around can occur; indices
      and lengths are [nat].
    - A Go [rune] is a [Z] (a Unicode code point).
    - A run-time panic (index out of range) is a result of its own, distinct
      from a returned [error]. *)

From Stdlib Require Import ZArith List String Ascii Bool Lia DecimalString DecimalPos.
Import ListNotations.

#[local] Open Scope string_scope.
#[local] Open Scope Z_scope.

(** ** Go strings *)

Definition byte := ascii.
Bind Scope char_scope with byte.

(** The numeric value of a byte. *)
Definition byte_val (c : byte) : Z := Z.of_nat (nat_of_ascii c).

Definition byte_of (n : Z) : byte := ascii_of_nat (Z.to_nat n).

(** [s[lo:hi]], for [lo <= hi <= len(s)]. *)
Definition slice (s : string) (lo hi : nat) : string :=
  substring lo (hi - lo) s.

(** [strings.Repeat(string(c), n)] for an ASCII byte [c]. *)
Fixpoint Repeat (c : byte) (n : nat) : string :=
  match n with
  | O => ""
  | S n' => String c (Repeat c n')
  end.

Arguments Repeat c%_char n%_nat.

Definition is_digit (c : byte) : bool :=
  (48 <=? byte_val c) && (byte_val c <=? 57).

(** ** strconv *)

Module strconv.

(** The two kinds of [*strconv.NumError], with the offending input. *)
Inductive NumError : Type :=
| ErrSyntax (num : string)
| ErrRange (num : string).

(** The loop of [Atoi]'s fast path:
    [ch -= '0'; if ch > 9 { syntax error }; n = n*10 + int(ch)],
    the subtraction being one on [uint8]. *)
Fixpoint fast_digits (s : string) (n : Z) : option Z :=
  match s with
  | "" => Some n
  | String c s' =>
      let ch := (byte_val c - 48) mod 256 in
      if 9 <? ch then None else fast_digits s' (n * 10 + ch)
  end.

Inductive uint_result : Type :=
| UOk (n : Z)
| USyntax
| URange.

Definition maxUint64 : Z := 2 ^ 64 - 1.

(** The loop of [ParseUint(s, 10, 64)]: a character that is no decimal
    digit is a syntax error, a value beyond 64 bits a range error,
    whichever comes first. *)
Fixpoint uint_digits (s : string) (n : Z) : uint_result :=
  match s with
  | "" => UOk n
  | String c s' =>
      if is_digit c then
        if maxUint64 / 10 + 1 <=? n then URange
        else
          let n1 := n * 10 + (byte_val c - 48) in
          if maxUint64 <? n1 then URange else uint_digits s' n1
      else USyntax
  end.

Definition ParseUint (s : string) : uint_result :=
  match s with
  | "" => USyntax
  | _ => uint_digits s 0
  end.

(** [ParseInt(s, 10, 0)] on a 64-bit platform. *)
Definition ParseInt (s : string) : Z * option NumError :=
  match s with
  | "" => (0, Some (ErrSyntax s))
  | String c rest =>
      let neg := Ascii.eqb c "-" in
      let body := if Ascii.eqb c "+" || neg then rest else s in
      match ParseUint body with
      | USyntax => (0, Some (ErrSyntax s))
      | URange =>
          if neg then (- 2 ^ 63, Some (ErrRange s))
          else (2 ^ 63 - 1, Some (ErrRange s))
      | UOk un =>
          if negb neg && (2 ^ 63 <=? un) then (2 ^ 63 - 1, Some (ErrRange s))
          else if neg && (2 ^ 63 <? un) then (- 2 ^ 63, Some (ErrRange s))
          else (if neg then - un else un, None)
      end
  end.

(** [strconv.Atoi]: a fast path for inputs of 1 to 18 bytes, [ParseInt]
    for the others. *)
Definition Atoi (s : string) : Z * option NumError :=
  let sLen := String.length s in
  if ((0 <? sLen) && (sLen <? 19))%nat then
    match s with
    | "" => (0, Some (ErrSyntax s))
    | String c rest =>
        let signed := Ascii.eqb c "-" || Ascii.eqb c "+" in
        let body := if signed then rest else s in
        if signed && (String.length body <? 1)%nat then (0, Some (ErrSyntax s))
        else
          match fast_digits body 0 with
          | None => (0, Some (ErrSyntax s))
          | Some n => (if Ascii.eqb c "-" then - n else n, None)
          end
    end
  else ParseInt s.

(** The decimal digits of a natural number [n >= 0]. *)
Definition udec (n : Z) : string :=
  NilZero.string_of_uint (N.to_uint (Z.to_N n)).

(** [strconv.Itoa]. *)
Definition Itoa (v : Z) : string :=
  if v <? 0 then "-" ++ udec (- v) else udec v.

End strconv.

(** ** fmt *)

Module fmt.

(** [fmt.Sprintf("%0wd", v)]: zero padding to width [w], the sign counted
    in the width. *)
Definition Sprintf_0d (w : nat) (v : Z) : string :=
  if v <? 0 then
    let d := strconv.udec (- v) in
    "-" ++ Repeat "0" (w - 1 - String.length d) ++ d
  else
    let d := strconv.udec v in
    Repeat "0" (w - String.length d) ++ d.

(** [fmt.Sprintf("%wd", v)]: space padding on the left to width [w]. *)
Definition Sprintf_d (w : nat) (v : Z) : string :=
  let d := strconv.Itoa v in
  Repeat " " (w - String.length d) ++ d.

End fmt.

(** ** unicode/utf8 *)

Module utf8.

Definition RuneError : Z := 65533.

(** A continuation byte, [0x80 .. 0xBF]. *)
Definition cont (b : Z) : bool := (128 <=? b) && (b <=? 191).

Definition low6 (b : Z) : Z := Z.land b 63.

(** The conversion [[]rune(s)]: the code points of [s], every byte that
    starts no well-formed UTF-8 sequence giving [RuneError]. *)
Fixpoint runes (s : string) : list Z :=
  match s with
  | "" => []
  | String c0 s1 =>
      let b0 := byte_val c0 in
      if b0 <? 128 then b0 :: runes s1
      else if (b0 <? 194) || (244 <? b0) then RuneError :: runes s1
      else if b0 <? 224 then
        match s1 with
        | String c1 s2 =>
            if cont (byte_val c1)
            then Z.lor (Z.shiftl (Z.land b0 31) 6) (low6 (byte_val c1)) :: runes s2
            else RuneError :: runes s1
        | _ => RuneError :: runes s1
        end
      else if b0 <? 240 then
        let lo := if b0 =? 224 then 160 else 128 in
        let hi := if b0 =? 237 then 159 else 191 in
        match s1 with
        | String c1 (String c2 s3) =>
            if (lo <=? byte_val c1) && (byte_val c1 <=? hi) && cont (byte_val c2)
            then Z.lor (Z.shiftl (Z.land b0 15) 12)
                   (Z.lor (Z.shiftl (low6 (byte_val c1)) 6) (low6 (byte_val c2)))
                 :: runes s3
            else RuneError :: runes s1
        | _ => RuneError :: runes s1
        end
      else
        let lo := if b0 =? 240 then 144 else 128 in
        let hi := if b0 =? 244 then 143 else 191 in
        match s1 with
        | String c1 (String c2 (String c3 s4)) =>
            if (lo <=? byte_val c1) && (byte_val c1 <=? hi)
               && cont (byte_val c2) && cont (byte_val c3)
            then Z.lor (Z.shiftl (Z.land b0 7) 18)
                   (Z.lor (Z.shiftl (low6 (byte_val c1)) 12)
                      (Z.lor (Z.shiftl (low6 (byte_val c2)) 6) (low6 (byte_val c3))))
                 :: runes s4
            else RuneError :: runes s1
        | _ => RuneError :: runes s1
        end
  end.

Definition tail_byte (r : Z) (shift : Z) : byte :=
  byte_of (Z.lor 128 (low6 (Z.shiftr r shift))).

Definition encode3 (r : Z) : string :=
  String (byte_of (Z.lor 224 (Z.shiftr r 12)))
    (String (tail_byte r 6) (String (tail_byte r 0) "")).

(** The bytes [strings.Builder.WriteRune(r)] appends. *)
Definition EncodeRune (r : Z) : string :=
  if (0 <=? r) && (r <=? 127) then String (byte_of r) ""
  else if (0 <=? r) && (r <=? 2047) then
    String (byte_of (Z.lor 192 (Z.shiftr r 6))) (String (tail_byte r 0) "")
  else if (r <? 0) || (1114111 <? r) || ((55296 <=? r) && (r <=? 57343)) then
    encode3 RuneError
  else if r <=? 65535 then encode3 r
  else
    String (byte_of (Z.lor 240 (Z.shiftr r 18)))
      (String (tail_byte r 12) (String (tail_byte r 6) (String (tail_byte r 0) ""))).

End utf8.

(** ** locale.go *)

(** [Locale] defines the date and time names required for locale settings. *)
Record Locale : Type := mkLocale {
  WeekdaysFull : list string;   (* full names, starting from Sunday *)
  WeekdaysAbbrev : list string;
  MonthsFull : list string;     (* full month names, starting from January *)
  MonthsAbbrev : list string;
  AM : string;
  PM : string
}.

Definition DefaultLocale : Locale := {|
  WeekdaysFull :=
    ["Sunday"; "Monday"; "Tuesday"; "Wednesday"; "Thursday"; "Friday"; "Saturday"];
  WeekdaysAbbrev := ["Sun"; "Mon"; "Tue"; "Wed"; "Thu"; "Fri"; "Sat"];
  MonthsFull :=
    ["January"; "February"; "March"; "April"; "May"; "June";
     "July"; "August"; "September"; "October"; "November"; "December"];
  MonthsAbbrev :=
    ["Jan"; "Feb"; "Mar"; "Apr"; "May"; "Jun"; "Jul"; "Aug"; "Sep"; "Oct"; "Nov"; "Dec"];
  AM := "AM";
  PM := "PM"
|}.

(** [if locale == nil { locale = DefaultLocale }]: a [*Locale] is an
    optional locale. *)
Definition locale_or_default (locale : option Locale) : Locale :=
  match locale with
  | Some l => l
  | None => DefaultLocale
  end.

(** The slice index expression [names[i]]: [None] is the run-time panic
    "index out of range". *)
Definition index (names : list string) (i : Z) : option string :=
  if i <? 0 then None else nth_error names (Z.to_nat i).

(** ** The calendar: package time

    The package reads a [time.Time] through its methods only and builds one
    with [time.Date] only.  A time is therefore the record of what its
    methods answer, and a built time is the call of [time.Date] that makes
    it, normalised by the calendar. *)

Record Loc : Type := mkLoc { zone : string }.

Record Time : Type := mkTime {
  Year : Z;
  Month : Z;            (* 1 .. 12 *)
  Day : Z;
  Hour : Z;
  Minute : Z;
  Second : Z;
  Weekday : Z;          (* 0 = Sunday *)
  YearDay : Z;
  ISOWeek : Z * Z;      (* ISO year, ISO week *)
  Unix : Z;
  Format : string -> string;   (* t.Format(layout) *)
  Location : Loc
}.

(** [time.Date(year, month, day, hour, min, sec, nsec, loc)]. *)
Inductive DateTime : Type :=
| Date (year month day hour min sec nsec : Z) (loc : Loc).

(** ** format.go, first implementation: runes and POSIX prefixes *)

Module Posix.

(** The character a rune is, when it is an ASCII one; the cases of the
    [switch] are ASCII characters. *)
Definition rune_char (r : Z) : option byte :=
  if (0 <=? r) && (r <? 128) then Some (byte_of r) else None.

(** The [switch spec] of [StrftimeL]: what one conversion specifier
    writes; [None] when a weekday name is indexed out of range. *)
Definition conv (spec : Z) (t : Time) (locale : Locale) : option string :=
  match rune_char spec with
  | Some "A"%char => index (WeekdaysFull locale) (Weekday t)
  | Some "a"%char => index (WeekdaysAbbrev locale) (Weekday t)
  | Some "B"%char =>
      let monthIndex := Month t - 1 in
      if (0 <=? monthIndex) && (monthIndex <? Z.of_nat (List.length (MonthsFull locale)))
      then index (MonthsFull locale) monthIndex
      else Some ""
  | Some "b"%char | Some "h"%char =>
      let monthIndex := Month t - 1 in
      if (0 <=? monthIndex) && (monthIndex <? Z.of_nat (List.length (MonthsAbbrev locale)))
      then index (MonthsAbbrev locale) monthIndex
      else Some ""
  | Some "C"%char =>
      let century := Z.quot (Year t) 100 in
      Some (fmt.Sprintf_0d 2 century)
  | Some "c"%char => Some (Format t "Mon Jan 2 15:04:05 2006")
  | Some "D"%char => Some (Format t "01/02/06")
  | Some "d"%char => Some (fmt.Sprintf_0d 2 (Day t))
  | Some "e"%char => Some (fmt.Sprintf_d 2 (Day t))
  | Some "H"%char => Some (fmt.Sprintf_0d 2 (Hour t))
  | Some "I"%char =>
      let hour := Z.rem (Hour t) 12 in
      let hour := if hour =? 0 then 12 else hour in
      Some (fmt.Sprintf_0d 2 hour)
  | Some "M"%char => Some (fmt.Sprintf_0d 2 (Minute t))
  | Some "S"%char => Some (fmt.Sprintf_0d 2 (Second t))
  | Some "p"%char => if Hour t <? 12 then Some (AM locale) else Some (PM locale)
  | Some "y"%char => Some (fmt.Sprintf_0d 2 (Z.rem (Year t) 100))
  | Some "Y"%char => Some (fmt.Sprintf_0d 4 (Year t))
  | Some "m"%char => Some (fmt.Sprintf_0d 2 (Month t))
  | Some "j"%char => Some (fmt.Sprintf_0d 3 (YearDay t))
  | Some "F"%char => Some (Format t "2006-01-02")
  | Some "Z"%char => Some (Format t "MST")
  | Some "z"%char => Some (Format t "-0700")
  | Some "%"%char => Some "%"
  | _ => Some ("%" ++ utf8.EncodeRune spec)
  end.

Definition is_percent (r : Z) : bool := r =? 37.
Definition is_ext (r : Z) : bool := (r =? 69) || (r =? 79).   (* 'E', 'O' *)

(** The loop [for i < len(runes)], on the runes from index [i] on, [b]
    being what the builder holds. *)
Fixpoint loop (rs : list Z) (t : Time) (locale : Locale) (b : string)
  : option string :=
  match rs with
  | [] => Some b
  | r :: rs1 =>
      if is_percent r then
        match rs1 with
        | [] => Some (b ++ "%")
        | r1 :: rs2 =>
            if is_ext r1 then
              match rs2 with
              | [] => Some (b ++ "%" ++ utf8.EncodeRune r1)
              | r2 :: rs3 =>
                  if is_percent r2 then
                    match rs3 with
                    | [] => Some (b ++ "%")
                    | r3 :: rs4 =>
                        match conv r3 t locale with
                        | Some o => loop rs4 t locale (b ++ o)
                        | None => None
                        end
                    end
                  else
                    match conv r2 t locale with
                    | Some o => loop rs3 t locale (b ++ o)
                    | None => None
                    end
              end
            else
              match conv r1 t locale with
              | Some o => loop rs2 t locale (b ++ o)
              | None => None
              end
        end
      else loop rs1 t locale (b ++ utf8.EncodeRune r)
  end.

(** The loop runs over the whole of the runes [rs]: it is left by its
    condition [i < len(runes)], by none of its [break]s. *)
Fixpoint complete (rs : list Z) : bool :=
  match rs with
  | [] => true
  | r :: rs1 =>
      if is_percent r then
        match rs1 with
        | [] => false
        | r1 :: rs2 =>
            if is_ext r1 then
              match rs2 with
              | [] => false
              | r2 :: rs3 =>
                  if is_percent r2 then
                    match rs3 with
                    | [] => false
                    | _ :: rs4 => complete rs4
                    end
                  else complete rs3
              end
            else complete rs2
        end
      else complete rs1
  end.

(** [StrftimeL] returns a formatted string based on the specified format,
    time [t], and locale; [None] is a run-time panic. *)
Definition StrftimeL (format : string) (t : Time) (locale : option Locale)
  : option string :=
  loop (utf8.runes format) t (locale_or_default locale) "".

Definition Strftime (format : string) (t : Time) : option string :=
  StrftimeL format t (Some DefaultLocale).

End Posix.

(** ** format.go, second implementation: bytes and GNU padding modifiers *)

Module Gnu.

(** [formatInt] formats an integer with specified padding. *)
Definition formatInt (value : Z) (width : nat) (padChar : byte) : string :=
  let s := strconv.Itoa value in
  if (width <=? String.length s)%nat then s
  else Repeat padChar (width - String.length s) ++ s.

(** [if padWidth > 0 { formatInt(v, w, padChar) } else { strconv.Itoa(v) }] *)
Definition padded (padWidth : nat) (v : Z) (w : nat) (padChar : byte) : string :=
  if (0 <? padWidth)%nat then formatInt v w padChar else strconv.Itoa v.

Definition hour12_of (t : Time) : Z :=
  let hour := Z.rem (Hour t) 12 in
  if hour =? 0 then 12 else hour.

(** The second [switch format[i]] of [StrftimeL]. *)
Definition conv (c : byte) (padWidth : nat) (padChar : byte)
  (t : Time) (loc : Locale) : option string :=
  match c with
  | "A"%char => index (WeekdaysFull loc) (Weekday t)
  | "a"%char => index (WeekdaysAbbrev loc) (Weekday t)
  | "B"%char => index (MonthsFull loc) (Month t - 1)
  | "b"%char | "h"%char => index (MonthsAbbrev loc) (Month t - 1)
  | "C"%char => Some (padded padWidth (Z.quot (Year t) 100) padWidth padChar)
  | "c"%char => Some (Format t "Mon Jan 2 15:04:05 2006")
  | "D"%char => Some (Format t "01/02/06")
  | "d"%char => Some (padded padWidth (Day t) padWidth padChar)
  | "e"%char => Some (fmt.Sprintf_d 2 (Day t))
  | "F"%char => Some (Format t "2006-01-02")
  | "G"%char => Some (padded padWidth (fst (ISOWeek t)) 4 padChar)
  | "g"%char => Some (padded padWidth (Z.rem (fst (ISOWeek t)) 100) 2 padChar)
  | "H"%char => Some (padded padWidth (Hour t) padWidth padChar)
  | "I"%char => Some (padded padWidth (hour12_of t) padWidth padChar)
  | "j"%char => Some (padded padWidth (YearDay t) 3 padChar)
  | "k"%char => Some (fmt.Sprintf_d 2 (Hour t))
  | "l"%char => Some (fmt.Sprintf_d 2 (hour12_of t))
  | "M"%char => Some (padded padWidth (Minute t) padWidth padChar)
  | "m"%char => Some (padded padWidth (Month t) padWidth padChar)
  | "n"%char => Some (String (byte_of 10) "")
  | "p"%char => if Hour t <? 12 then Some (AM loc) else Some (PM loc)
  | "R"%char => Some (Format t "15:04")
  | "r"%char =>
      let ampm := if 12 <=? Hour t then PM loc else AM loc in
      Some (fmt.Sprintf_0d 2 (hour12_of t) ++ ":" ++ fmt.Sprintf_0d 2 (Minute t)
            ++ ":" ++ fmt.Sprintf_0d 2 (Second t) ++ " " ++ ampm)
  | "S"%char => Some (padded padWidth (Second t) padWidth padChar)
  | "s"%char => Some (strconv.Itoa (Unix t))
  | "T"%char => Some (Format t "15:04:05")
  | "t"%char => Some (String (byte_of 9) "")
  | "U"%char => Some (padded padWidth (snd (ISOWeek t)) 2 padChar)
  | "u"%char =>
      let wd := Weekday t in
      let wd := if wd =? 0 then 7 else wd in
      Some (strconv.Itoa wd)
  | "V"%char => Some (padded padWidth (snd (ISOWeek t)) 2 padChar)
  | "v"%char =>
      match index (MonthsAbbrev loc) (Month t - 1) with
      | Some name =>
          Some (fmt.Sprintf_d 2 (Day t) ++ "-" ++ name ++ "-" ++ fmt.Sprintf_0d 4 (Year t))
      | None => None
      end
  | "W"%char => Some (padded padWidth (snd (ISOWeek t)) 2 padChar)
  | "w"%char => Some (strconv.Itoa (Weekday t))
  | "X"%char => Some (Format t "15:04:05")
  | "x"%char => Some (Format t "01/02/06")
  | "Y"%char => Some (padded padWidth (Year t) 4 padChar)
  | "y"%char => Some (padded padWidth (Z.rem (Year t) 100) 2 padChar)
  | "Z"%char => Some (Format t "MST")
  | "z"%char => Some (Format t "-0700")
  | "+"%char => Some (Format t "Mon Jan 2 15:04:05 MST 2006")
  | "%"%char => Some "%"
  | _ => Some (String c "")
  end.

Definition is_percent (c : byte) : bool := Ascii.eqb c "%".
Definition is_ext (c : byte) : bool := Ascii.eqb c "E" || Ascii.eqb c "O".

(** The first [switch format[i]]: a modifier is one of ['-'], ['_'] and
    ['0']. *)
Definition is_modifier (c : byte) : bool :=
  Ascii.eqb c "-" || Ascii.eqb c "_" || Ascii.eqb c "0".

Definition padWidth_of (c : byte) : nat := if Ascii.eqb c "-" then 0%nat else 2%nat.
Definition padChar_of (c : byte) : byte := if Ascii.eqb c "_" then " "%char else "0"%char.

(** The loop [for i < len(format)], on the bytes from index [i] on. *)
Fixpoint loop (f : string) (t : Time) (loc : Locale) (result : string)
  : option string :=
  match f with
  | "" => Some result
  | String c f1 =>
      if negb (is_percent c) then loop f1 t loc (result ++ String c "")
      else
        match f1 with
        | "" => Some result
        | String c1 f2 =>
            if is_percent c1 then loop f2 t loc (result ++ "%")
            else
              let padChar := padChar_of c1 in
              let padWidth := padWidth_of c1 in
              match (if is_modifier c1 then f2 else f1) with
              | "" => Some result
              | String c2 f3 =>
                  if is_ext c2 then
                    match f3 with
                    | "" => Some result
                    | String c3 f4 =>
                        match conv c3 padWidth padChar t loc with
                        | Some o => loop f4 t loc (result ++ o)
                        | None => None
                        end
                    end
                  else
                    match conv c2 padWidth padChar t loc with
                    | Some o => loop f3 t loc (result ++ o)
                    | None => None
                    end
              end
        end
  end.

(** The loop runs over the whole of [f]: it is left by its condition
    [i < len(format)], by none of its [break]s. *)
Fixpoint complete (f : string) : bool :=
  match f with
  | "" => true
  | String c f1 =>
      if negb (is_percent c) then complete f1
      else
        match f1 with
        | "" => false
        | String c1 f2 =>
            if is_percent c1 then complete f2
            else
              match (if is_modifier c1 then f2 else f1) with
              | "" => false
              | String c2 f3 =>
                  if is_ext c2 then
                    match f3 with
                    | "" => false
                    | String _ f4 => complete f4
                    end
                  else complete f3
              end
        end
  end.

(** [StrftimeL] formats time according to the specified format string and
    locale; [None] is a run-time panic. *)
Definition StrftimeL (format : string) (t : Time) (loc : option Locale)
  : option string :=
  loop format t (locale_or_default loc) "".

Definition Strftime (format : string) (t : Time) : option string :=
  StrftimeL format t (Some DefaultLocale).

End Gnu.

(** ** parse.go *)

(** The errors the parser builds with [fmt.Errorf], by call site, with the
    values their messages are formatted from. *)
Inductive error : Type :=
| ErrReachedEnd (length pos : nat)
    (* expected %d digits at position %d, but reached end of string *)
| ErrParseInteger (substr : string) (pos : nat) (err : strconv.NumError)
    (* failed to parse integer '%s' at position %d: %v *)
| ErrAtLeastDigits (minDigits start : nat)
    (* expected at least %d digits at position %d *)
| ErrNum (err : strconv.NumError)
| ErrIncompleteAtEnd
    (* incomplete format specifier at end *)
| ErrIncompleteAfterPosix
    (* incomplete format specifier after posix extension *)
| ErrExpectedAMPM (j : nat)
    (* expected AM/PM marker at position %d *)
| ErrSlashAfterMonth       (* expected '/' after month in %D *)
| ErrSlashAfterDay         (* expected '/' after day in %D *)
| ErrDashAfterYear         (* expected '-' after year in %F *)
| ErrDashAfterMonth        (* expected '-' after month in %F *)
| ErrFullMonth (j : nat)
    (* failed to parse full month name at position %d *)
| ErrAbbrevMonth (j : nat)
    (* failed to parse abbreviated month name at position %d *)
| ErrFullWeekday (j : nat)
    (* failed to parse full weekday name at position %d *)
| ErrAbbrevWeekday (j : nat)
    (* failed to parse abbreviated weekday name at position %d *)
| ErrLiteralPercent (j : nat)
    (* expected literal '%' at position %d *)
| ErrUnsupported (spec : byte)
    (* unsupported conversion specifier: %%%c *)
| ErrLiteralMismatch (j : nat) (expected got : byte)
    (* literal mismatch at position %d: expected '%c', got '%c' *)
| ErrTrailing (j : nat)
    (* unparsed trailing characters at position %d *)
| ErrMissingAMPM
    (* 12-hour format specified but missing AM/PM marker *)
| ErrInvalidHour (hour : Z).
    (* invalid hour %d for 12-hour format *)

(** What a call does: it returns a value with a nil error, returns an error,
    or panics. *)
Inductive outcome (A : Type) : Type :=
| Value (a : A)
| Error (e : error)
| Panic.

Arguments Value {A} a.
Arguments Error {A} e.
Arguments Panic {A}.

Definition bind {A B : Type} (m : outcome A) (k : A -> outcome B) : outcome B :=
  match m with
  | Value a => k a
  | Error e => Error e
  | Panic => Panic
  end.

(** [parseResult] stores the fields obtained during parsing. *)
Record parseResult : Type := mkResult {
  year : Z;
  month : Z;
  day : Z;
  hour : Z;
  minute : Z;
  second : Z;
  hour12 : bool;    (* whether to use 12-hour format (%I) *)
  ampmSet : bool;   (* whether %p (AM/PM marker) appeared *)
  isPM : bool       (* whether it is PM when using 12-hour format *)
}.

Definition set_year (r : parseResult) (v : Z) : parseResult :=
  mkResult v (month r) (day r) (hour r) (minute r) (second r) (hour12 r) (ampmSet r) (isPM r).
Definition set_month (r : parseResult) (v : Z) : parseResult :=
  mkResult (year r) v (day r) (hour r) (minute r) (second r) (hour12 r) (ampmSet r) (isPM r).
Definition set_day (r : parseResult) (v : Z) : parseResult :=
  mkResult (year r) (month r) v (hour r) (minute r) (second r) (hour12 r) (ampmSet r) (isPM r).
Definition set_hour (r : parseResult) (v : Z) : parseResult :=
  mkResult (year r) (month r) (day r) v (minute r) (second r) (hour12 r) (ampmSet r) (isPM r).
Definition set_minute (r : parseResult) (v : Z) : parseResult :=
  mkResult (year r) (month r) (day r) (hour r) v (second r) (hour12 r) (ampmSet r) (isPM r).
Definition set_second (r : parseResult) (v : Z) : parseResult :=
  mkResult (year r) (month r) (day r) (hour r) (minute r) v (hour12 r) (ampmSet r) (isPM r).
Definition set_hour12 (r : parseResult) (v : bool) : parseResult :=
  mkResult (year r) (month r) (day r) (hour r) (minute r) (second r) v (ampmSet r) (isPM r).
(** [result.ampmSet = true; result.isPM = pm] *)
Definition set_ampm (r : parseResult) (pm : bool) : parseResult :=
  mkResult (year r) (month r) (day r) (hour r) (minute r) (second r) (hour12 r) true pm.

(** [parseFixedInt] reads a fixed-length numeric string from [s[pos:]] and
    returns the corresponding integer and new position. *)
Definition parseFixedInt (s : string) (pos length : nat) : Z * nat * option error :=
  if (String.length s <? pos + length)%nat then (0, pos, Some (ErrReachedEnd length pos))
  else
    let substr := slice s pos (pos + length) in
    match strconv.Atoi substr with
    | (_, Some err) => (0, pos, Some (ErrParseInteger substr pos err))
    | (val, None) => (val, (pos + length)%nat, None)
    end.

(** The loop of [parseIntVariable]:
    [for pos < len(s) && count < maxDigits && s[pos] >= '0' && s[pos] <= '9'],
    [left] being [maxDigits - count]. *)
Fixpoint digit_run (s : string) (pos left : nat) : nat :=
  match left with
  | O => pos
  | S left' =>
      match String.get pos s with
      | Some c => if is_digit c then digit_run s (S pos) left' else pos
      | None => pos
      end
  end.

(** [parseIntVariable] reads at least [minDigits] and at most [maxDigits]
    digits from [s[pos:]]. *)
Definition parseIntVariable (s : string) (pos minDigits maxDigits : nat)
  : Z * nat * option error :=
  let start := pos in
  let pos := digit_run s pos maxDigits in
  let count := (pos - start)%nat in
  if (count <? minDigits)%nat then (0, start, Some (ErrAtLeastDigits minDigits start))
  else
    match strconv.Atoi (slice s start pos) with
    | (_, Some err) => (0, start, Some (ErrNum err))
    | (val, None) => (val, pos, None)
    end.

(** [j < len(s) && s[j] == c] *)
Definition byte_is (s : string) (j : nat) (c : byte) : bool :=
  match String.get j s with
  | Some x => Ascii.eqb x c
  | None => false
  end.

Arguments byte_is s%_string j%_nat c%_char.

(** [len(s[j:]) >= len(name) && s[j:j+len(name)] == name] *)
Definition matches_at (s : string) (j : nat) (name : string) : bool :=
  (String.length name <=? String.length s - j)%nat
  && String.eqb (slice s j (j + String.length name)) name.

(** [for i, name := range names]: the index and the name of the first
    name of the table found at the cursor. *)
Fixpoint first_match (names : list string) (s : string) (j : nat) (i : Z)
  : option (Z * string) :=
  match names with
  | [] => None
  | name :: rest =>
      if matches_at s j name then Some (i, name)
      else first_match rest s j (i + 1)
  end.

(** The two-digit year convention of [%y] and [%D]. *)
Definition pivot (twoDigit : Z) : Z :=
  if twoDigit <? 69 then 2000 + twoDigit else 1900 + twoDigit.

(** The [switch spec] of [ParseL]: one conversion specifier, read at the
    cursor [j].  The error a numeric field returns is dropped by the blank
    identifier, as in [result.year, j, _ = parseFixedInt(s, j, 4)]. *)
Definition parseSpec (spec : byte) (s : string) (locale : Locale)
  (result : parseResult) (j : nat) : outcome (parseResult * nat) :=
  match spec with
  | "Y"%char =>
      let '(v, j, _) := parseFixedInt s j 4 in
      Value (set_year result v, j)
  | "y"%char =>
      let '(twoDigit, j, _) := parseFixedInt s j 2 in
      Value (set_year result (pivot twoDigit), j)
  | "m"%char =>
      let '(v, j, _) := parseFixedInt s j 2 in
      Value (set_month result v, j)
  | "d"%char =>
      let '(v, j, _) := parseFixedInt s j 2 in
      Value (set_day result v, j)
  | "e"%char =>
      let j := if byte_is s j " " then S j else j in
      let '(v, j, _) := parseIntVariable s j 1 2 in
      Value (set_day result v, j)
  | "H"%char =>
      let '(v, j, _) := parseFixedInt s j 2 in
      Value (set_hour result v, j)
  | "I"%char =>
      let '(v, j, _) := parseFixedInt s j 2 in
      Value (set_hour12 (set_hour result v) true, j)
  | "M"%char =>
      let '(v, j, _) := parseFixedInt s j 2 in
      Value (set_minute result v, j)
  | "S"%char =>
      let '(v, j, _) := parseFixedInt s j 2 in
      Value (set_second result v, j)
  | "p"%char =>
      if matches_at s j (AM locale) then
        Value (set_ampm result false, (j + String.length (AM locale))%nat)
      else if matches_at s j (PM locale) then
        Value (set_ampm result true, (j + String.length (PM locale))%nat)
      else Error (ErrExpectedAMPM j)
  | "D"%char =>
      let '(v, j, _) := parseFixedInt s j 2 in
      let result := set_month result v in
      if negb (byte_is s j "/") then Error ErrSlashAfterMonth
      else
        let j := S j in
        let '(v, j, _) := parseFixedInt s j 2 in
        let result := set_day result v in
        if negb (byte_is s j "/") then Error ErrSlashAfterDay
        else
          let j := S j in
          let '(twoDigit, j, _) := parseFixedInt s j 2 in
          Value (set_year result (pivot twoDigit), j)
  | "F"%char =>
      let '(v, j, _) := parseFixedInt s j 4 in
      let result := set_year result v in
      if negb (byte_is s j "-") then Error ErrDashAfterYear
      else
        let j := S j in
        let '(v, j, _) := parseFixedInt s j 2 in
        let result := set_month result v in
        if negb (byte_is s j "-") then Error ErrDashAfterMonth
        else
          let j := S j in
          let '(v, j, _) := parseFixedInt s j 2 in
          Value (set_day result v, j)
  | "B"%char =>
      match first_match (MonthsFull locale) s j 0 with
      | Some (iMonth, mName) =>
          Value (set_month result (iMonth + 1), (j + String.length mName)%nat)
      | None => Error (ErrFullMonth j)
      end
  | "b"%char | "h"%char =>
      match first_match (MonthsAbbrev locale) s j 0 with
      | Some (iMonth, mName) =>
          Value (set_month result (iMonth + 1), (j + String.length mName)%nat)
      | None => Error (ErrAbbrevMonth j)
      end
  | "A"%char =>
      match first_match (WeekdaysFull locale) s j 0 with
      | Some (_, wName) => Value (result, (j + String.length wName)%nat)
      | None => Error (ErrFullWeekday j)
      end
  | "a"%char =>
      match first_match (WeekdaysAbbrev locale) s j 0 with
      | Some (_, wName) => Value (result, (j + String.length wName)%nat)
      | None => Error (ErrAbbrevWeekday j)
      end
  | "%"%char =>
      if negb (byte_is s j "%") then Error (ErrLiteralPercent j)
      else Value (result, S j)
  | _ => Error (ErrUnsupported spec)
  end.

(** The non-conversion branch: a literal byte [c] of the format.  The
    arguments of [fmt.Errorf] include [s[j]], which is evaluated before the
    call: with the input exhausted the index expression panics. *)
Definition parseLiteral (c : byte) (s : string) (result : parseResult) (j : nat)
  : outcome (parseResult * nat) :=
  if (String.length s <=? j)%nat || negb (byte_is s j c) then
    match String.get j s with
    | Some got => Error (ErrLiteralMismatch j c got)
    | None => Panic
    end
  else Value (result, S j).

Definition is_percent (c : byte) : bool := Ascii.eqb c "%".
Definition is_ext (c : byte) : bool := Ascii.eqb c "E" || Ascii.eqb c "O".

(** The loop [for i < len(format)] of [ParseL], on the bytes of the format
    from index [i] on, with the accumulator and the cursor [j] into [s]. *)
Fixpoint walk (format : string) (s : string) (locale : Locale)
  (result : parseResult) (j : nat) : outcome (parseResult * nat) :=
  match format with
  | "" => Value (result, j)
  | String c f1 =>
      if is_percent c then
        match f1 with
        | "" => Error ErrIncompleteAtEnd
        | String c1 f2 =>
            if is_ext c1 then
              match f2 with
              | "" => Error ErrIncompleteAfterPosix
              | String c2 f3 =>
                  if is_percent c2 then
                    match f3 with
                    | "" => Error ErrIncompleteAfterPosix
                    | String c3 f4 =>
                        bind (parseSpec c3 s locale result j)
                          (fun st => walk f4 s locale (fst st) (snd st))
                    end
                  else
                    bind (parseSpec c2 s locale result j)
                      (fun st => walk f3 s locale (fst st) (snd st))
              end
            else
              bind (parseSpec c1 s locale result j)
                (fun st => walk f2 s locale (fst st) (snd st))
        end
      else
        bind (parseLiteral c s result j)
          (fun st => walk f1 s locale (fst st) (snd st))
  end.

(** [for j < len(s) && (s[j] == ' ' || s[j] == '\t') { j++ }], [left] being
    [len(s) - j]. *)
Fixpoint skip_blanks (s : string) (j left : nat) : nat :=
  match left with
  | O => j
  | S left' =>
      if byte_is s j " " || byte_is s j (byte_of 9) then skip_blanks s (S j) left'
      else j
  end.

(** The accumulator [ParseL] starts from: the fields of [base]. *)
Definition initial (base : Time) : parseResult := {|
  year := Year base;
  month := Month base;
  day := Day base;
  hour := Hour base;
  minute := Minute base;
  second := Second base;
  hour12 := false;
  ampmSet := false;
  isPM := false
|}.

(** What follows the loop: trailing blanks, the 12-hour checks and the
    adjustment of the hour, and the call of [time.Date]. *)
Definition finish (s : string) (base : Time) (result : parseResult) (j : nat)
  : outcome DateTime :=
  let j := skip_blanks s j (String.length s - j) in
  if negb (j =? String.length s)%nat then Error (ErrTrailing j)
  else if hour12 result && negb (ampmSet result) then Error ErrMissingAMPM
  else if hour12 result then
    if (hour result <? 1) || (12 <? hour result) then Error (ErrInvalidHour (hour result))
    else
      let h :=
        if isPM result && negb (hour result =? 12) then hour result + 12
        else if negb (isPM result) && (hour result =? 12) then 0
        else hour result in
      Value (Date (year result) (month result) (day result) h
               (minute result) (second result) 0 (Location base))
  else
    Value (Date (year result) (month result) (day result) (hour result)
             (minute result) (second result) 0 (Location base)).

(** [ParseL] parses the input string [s] according to the specified format
    and locale.  Go's [ParseL] has the three parameters [format], [s] and
    [locale]; [base] is what [time.Now()], called in its body, answers. *)
Definition ParseL (format s : string) (locale : option Locale) (base : Time)
  : outcome DateTime :=
  let locale := locale_or_default locale in
  bind (walk format s locale (initial base) 0)
    (fun st => finish s base (fst st) (snd st)).

(** [Parse] parses the string using the default locale. *)
Definition Parse (format s : string) (base : Time) : outcome DateTime :=
  ParseL format s (Some DefaultLocale) base.

(** ** The specifier scanner of the parser

    [ParseL] scans the format and reads the input in one loop.  [scan] is
    the scanning alone: the directives the loop meets, in order, up to the
    first specifier that is cut short by the end of the format. *)

Inductive directive : Type :=
| Literal (c : byte)        (* a byte that must match the input *)
| Spec (c : byte)           (* a conversion specifier, the prefix E or O skipped *)
| Incomplete (e : error).   (* the format ends inside a specifier *)

Fixpoint scan (format : string) : list directive :=
  match format with
  | "" => []
  | String c f1 =>
      if is_percent c then
        match f1 with
        | "" => [Incomplete ErrIncompleteAtEnd]
        | String c1 f2 =>
            if is_ext c1 then
              match f2 with
              | "" => [Incomplete ErrIncompleteAfterPosix]
              | String c2 f3 =>
                  if is_percent c2 then
                    match f3 with
                    | "" => [Incomplete ErrIncompleteAfterPosix]
                    | String c3 f4 => Spec c3 :: scan f4
                    end
                  else Spec c2 :: scan f3
              end
            else Spec c1 :: scan f2
        end
      else Literal c :: scan f1
  end.

Definition exec (d : directive) (s : string) (locale : Locale)
  (result : parseResult) (j : nat) : outcome (parseResult * nat) :=
  match d with
  | Literal c => parseLiteral c s result j
  | Spec c => parseSpec c s locale result j
  | Incomplete e => Error e
  end.

Fixpoint run (ds : list directive) (s : string) (locale : Locale)
  (result : parseResult) (j : nat) : outcome (parseResult * nat) :=
  match ds with
  | [] => Value (result, j)
  | d :: ds' =>
      bind (exec d s locale result j)
        (fun st => run ds' s locale (fst st) (snd st))
  end.

Definition is_incomplete (d : directive) : bool :=
  match d with
  | Incomplete _ => true
  | _ => false
  end.

(** No specifier of the scanned format is cut short. *)
Definition well_scanned (ds : list directive) : bool :=
  forallb (fun d => negb (is_incomplete d)) ds.

(** The fields of the accumulator, and the fields a conversion specifier
    assigns. *)
Inductive field : Type := FYear | FMonth | FDay | FHour | FMinute | FSecond.

Definition field_of (f : field) (r : parseResult) : Z :=
  match f with
  | FYear => year r
  | FMonth => month r
  | FDay => day r
  | FHour => hour r
  | FMinute => minute r
  | FSecond => second r
  end.



Definition assigns (c : byte) (f : field) : bool :=
  match c, f with
  | "Y"%char, FYear | "y"%char, FYear => true
  | "m"%char, FMonth | "B"%char, FMonth | "b"%char, FMonth | "h"%char, FMonth => true
  | "d"%char, FDay | "e"%char, FDay => true
  | "H"%char, FHour | "I"%char, FHour => true
  | "M"%char, FMinute => true
  | "S"%char, FSecond => true
  | "D"%char, FYear | "D"%char, FMonth | "D"%char, FDay => true
  | "F"%char, FYear | "F"%char, FMonth | "F"%char, FDay => true
  | _, _ => false
  end.

(** The format mentions the field [f]: one of its specifiers assigns it. *)
Definition mentions (format : string) (f : field) : bool :=
  existsb (fun d => match d with Spec c => assigns c f | _ => false end) (scan format).

(** The format has the conversion specifier [c]. *)
Definition has_spec (format : string) (c : byte) : bool :=
  existsb (fun d => match d with Spec x => Ascii.eqb x c | _ => false end) (scan format).

Arguments has_spec format%_string c%_char.

(** ** The assignments of a directive

    What a directive does to the accumulator is a sequence of assignments
    that does not depend on what the accumulator holds. *)

Inductive update : Type :=
| SetField (f : field) (v : Z)
| SetTwelve (v : Z)           (* result.hour = v; result.hour12 = true *)
| SetAMPM (pm : bool).        (* result.ampmSet = true; result.isPM = pm *)

Definition apply_update (r : parseResult) (u : update) : parseResult :=
  match u with
  | SetField FYear v => set_year r v
  | SetField FMonth v => set_month r v
  | SetField FDay v => set_day r v
  | SetField FHour v => set_hour r v
  | SetField FMinute v => set_minute r v
  | SetField FSecond v => set_second r v
  | SetTwelve v => set_hour12 (set_hour r v) true
  | SetAMPM pm => set_ampm r pm
  end.

Definition apply_updates (us : list update) (r : parseResult) : parseResult :=
  fold_left apply_update us r.

(** The assignments a conversion specifier may make. *)
Definition allowed (c : byte) (u : update) : bool :=
  match u with
  | SetField f _ => assigns c f
  | SetTwelve _ => Ascii.eqb c "I"
  | SetAMPM _ => Ascii.eqb c "p"
  end.

Definition permits (d : directive) (u : update) : bool :=
  match d with
  | Spec c => allowed c u
  | _ => false
  end.

Definition is_twelve (u : update) : bool :=
  match u with SetTwelve _ => true | _ => false end.

Definition is_ampm (u : update) : bool :=
  match u with SetAMPM _ => true | _ => false end.


(** The conversion specifiers of [ParseL]. *)
Definition specifiers : list byte :=
  ["Y"; "y"; "m"; "d"; "e"; "H"; "I"; "M"; "S"; "p"; "D"; "F"; "B"; "b"; "h"; "A"; "a"; "%"]%char.

(** What a directive does at the cursor [j]: it makes assignments and moves
    the cursor, or fails, or panics, whatever the accumulator holds. *)
Definition shape_of (d : directive) (s : string) (locale : Locale) (j : nat) : Prop :=
  (exists us j',
      (forall r, exec d s locale r j = Value (apply_updates us r, j')) /\
      forallb (permits d) us = true /\
      (permits d (SetTwelve 0) = true -> exists v, us = [SetTwelve v])) \/
  (exists e, forall r, exec d s locale r j = Error e) \/
  (forall r, exec d s locale r j = Panic).

Definition run_shape_of (ds : list directive) (s : string) (locale : Locale) (j : nat)
  : Prop :=
  (exists us j',
      (forall r, run ds s locale r j = Value (apply_updates us r, j')) /\
      forallb (fun u => existsb (fun d => permits d u) ds) us = true /\
      (existsb (fun d => permits d (SetTwelve 0)) ds = true ->
       existsb is_twelve us = true)) \/
  (exists e, forall r, run ds s locale r j = Error e) \/
  (forall r, run ds s locale r j = Panic).


(** ** Fields rendered at a fixed width *)

Fixpoint all_digits (s : string) : bool :=
  match s with
  | "" => true
  | String c s' => is_digit c && all_digits s'
  end.

(** The field [v] is rendered at the fixed width [w]: [fmt.Sprintf("%0wd", v)]
    is exactly [w] decimal digits. *)
Definition fixed_width (w : nat) (v : Z) : bool :=
  (String.length (fmt.Sprintf_0d w v) =? w)%nat && all_digits (fmt.Sprintf_0d w v).

(** The number that the decimal digits [d], read from the left, add to [acc]. *)
Fixpoint digits_value (d : Decimal.uint) (acc : Z) : Z :=
  match d with
  | Decimal.Nil => acc
  | Decimal.D0 d' => digits_value d' (acc * 10 + 0)
  | Decimal.D1 d' => digits_value d' (acc * 10 + 1)
  | Decimal.D2 d' => digits_value d' (acc * 10 + 2)
  | Decimal.D3 d' => digits_value d' (acc * 10 + 3)
  | Decimal.D4 d' => digits_value d' (acc * 10 + 4)
  | Decimal.D5 d' => digits_value d' (acc * 10 + 5)
  | Decimal.D6 d' => digits_value d' (acc * 10 + 6)
  | Decimal.D7 d' => digits_value d' (acc * 10 + 7)
  | Decimal.D8 d' => digits_value d' (acc * 10 + 8)
  | Decimal.D9 d' => digits_value d' (acc * 10 + 9)
  end.

(** ** The contract of the formatter

    The locale has the seven weekday names and the twelve month names, and
    the calendar answers a weekday from 0 to 6 and a month from 1 to 12. *)

Definition locale_ok (locale : Locale) : Prop :=
  List.length (WeekdaysFull locale) = 7%nat /\
  List.length (WeekdaysAbbrev locale) = 7%nat /\
  List.length (MonthsFull locale) = 12%nat /\
  List.length (MonthsAbbrev locale) = 12%nat.

Definition calendar_ok (t : Time) : Prop :=
  0 <= Weekday t <= 6 /\ 1 <= Month t <= 12.

(** ** Times of the package's tests *)

Definition UTC : Loc := mkLoc "UTC".

(** 2025-02-25 15:30:45, a Tuesday. *)
Definition afternoon : Time := {|
  Year := 2025; Month := 2; Day := 25; Hour := 15; Minute := 30; Second := 45;
  Weekday := 2; YearDay := 56; ISOWeek := (2025, 9); Unix := 1740497445;
  Format := fun layout =>
    if String.eqb layout "01/02/06" then "02/25/25"
    else if String.eqb layout "2006-01-02" then "2025-02-25"
    else if String.eqb layout "15:04" then "15:30"
    else if String.eqb layout "15:04:05" then "15:30:45"
    else if String.eqb layout "MST" then "UTC"
    else if String.eqb layout "-0700" then "+0000"
    else if String.eqb layout "Mon Jan 2 15:04:05 2006" then "Tue Feb 25 15:30:45 2025"
    else if String.eqb layout "Mon Jan 2 15:04:05 MST 2006" then "Tue Feb 25 15:30:45 UTC 2025"
    else "";
  Location := UTC
|}.

(** 2025-01-01 00:00:00, a Wednesday. *)
Definition midnight : Time := {|
  Year := 2025; Month := 1; Day := 1; Hour := 0; Minute := 0; Second := 0;
  Weekday := 3; YearDay := 1; ISOWeek := (2025, 1); Unix := 1735689600;
  Format := fun layout =>
    if String.eqb layout "01/02/06" then "01/01/25"
    else if String.eqb layout "2006-01-02" then "2025-01-01"
    else if String.eqb layout "15:04" then "00:00"
    else if String.eqb layout "15:04:05" then "00:00:00"
    else if String.eqb layout "MST" then "UTC"
    else if String.eqb layout "-0700" then "+0000"
    else if String.eqb layout "Mon Jan 2 15:04:05 2006" then "Wed Jan 1 00:00:00 2025"
    else if String.eqb layout "Mon Jan 2 15:04:05 MST 2006" then "Wed Jan 1 00:00:00 UTC 2025"
    else "";
  Location := UTC
|}.

(** 2025-07-04 12:34:56, a Friday. *)
Definition noon : Time := {|
  Year := 2025; Month := 7; Day := 4; Hour := 12; Minute := 34; Second := 56;
  Weekday := 5; YearDay := 185; ISOWeek := (2025, 27); Unix := 1751632496;
  Format := fun layout =>
    if String.eqb layout "01/02/06" then "07/04/25"
    else if String.eqb layout "2006-01-02" then "2025-07-04"
    else if String.eqb layout "15:04" then "12:34"
    else if String.eqb layout "15:04:05" then "12:34:56"
    else if String.eqb layout "MST" then "UTC"
    else if String.eqb layout "-0700" then "+0000"
    else if String.eqb layout "Mon Jan 2 15:04:05 2006" then "Fri Jul 4 12:34:56 2025"
    else if String.eqb layout "Mon Jan 2 15:04:05 MST 2006" then "Fri Jul 4 12:34:56 UTC 2025"
    else "";
  Location := UTC
|}.

(** ** Blanks, prefixes and plain formats *)

(** [c == ' ' || c == '\t'] *)
Definition is_blank (c : byte) : bool :=
  Ascii.eqb c " " || Ascii.eqb c (byte_of 9).

Fixpoint all_blank (s : string) : bool :=
  match s with
  | "" => true
  | String c s' => is_blank c && all_blank s'
  end.

(** No byte of [f] is a percent sign: [f] is made of literals. *)
Fixpoint no_percent (f : string) : bool :=
  match f with
  | "" => true
  | String c f' => negb (Ascii.eqb c "%") && no_percent f'
  end.


(** The number of blanks [s] starts with. *)
Fixpoint leading_blanks (s : string) : nat :=
  match s with
  | "" => O
  | String c s' => if is_blank c then S (leading_blanks s') else O
  end.

(** The errors that only the statements after the loop of [ParseL] build. *)
Definition final_error (e : error) : bool :=
  match e with
  | ErrTrailing _ | ErrMissingAMPM | ErrInvalidHour _ => true
  | _ => false
  end.

(** The errors of [parseFixedInt] and [parseIntVariable]. *)
Definition numeric_error (e : error) : bool :=
  match e with
  | ErrReachedEnd _ _ | ErrParseInteger _ _ _ | ErrAtLeastDigits _ _ | ErrNum _ => true
  | _ => false
  end.

Definition is_literal (d : directive) : bool :=
  match d with
  | Literal _ => true
  | _ => false
  end.




(** ** Outputs and specifiers of the formatters *)


(** The specifiers of the second implementation of [StrftimeL] whose case
    reads [padWidth] or [padChar]. *)
Definition pads (c : byte) : bool :=
  existsb (Ascii.eqb c)
    ["C"; "d"; "G"; "g"; "H"; "I"; "j"; "M"; "m"; "S"; "U"; "V"; "W"; "Y"; "y"]%char.

(** The conversion specifiers that both implementations of [StrftimeL]
    have a case for. *)
Definition shared (c : byte) : bool :=
  existsb (Ascii.eqb c)
    ["A"; "a"; "B"; "b"; "h"; "C"; "c"; "D"; "d"; "e"; "H"; "I"; "M"; "S"; "p";
     "y"; "Y"; "m"; "j"; "F"; "Z"; "z"; "%"]%char.

(** The formats written with what both implementations have: ASCII
    literals and the shared specifiers, with or without a prefix [E] or
    [O], no directive being cut short by the end of the format. *)
Fixpoint common (f : string) : bool :=
  match f with
  | "" => true
  | String c f1 =>
      if Gnu.is_percent c then
        match f1 with
        | "" => false
        | String c1 f2 =>
            if Gnu.is_ext c1 then
              match f2 with
              | "" => false
              | String c2 f3 => shared c2 && negb (Gnu.is_percent c2) && common f3
              end
            else shared c1 && common f2
        end
      else (byte_val c <? 128) && common f1
  end.

(** ** Accumulators that differ in fields only *)

Definition same_flags (r1 r2 : parseResult) : Prop :=
  hour12 r1 = hour12 r2 /\ ampmSet r1 = ampmSet r2 /\ isPM r1 = isPM r2.

(** The directive [d] assigns the field [f]. *)
Definition covers (d : directive) (f : field) : bool :=
  match d with
  | Spec c => assigns c f
  | _ => false
  end.

(** ** Well-formed UTF-8 *)

(** The strings that [[]rune(s)] decodes without a [RuneError] of its own:
    every byte starts or continues a well-formed UTF-8 sequence (the test
    of [utf8.ValidString]). *)
Fixpoint well_formed (s : string) : bool :=
  match s with
  | "" => true
  | String c0 s1 =>
      let b0 := byte_val c0 in
      if b0 <? 128 then well_formed s1
      else if (b0 <? 194) || (244 <? b0) then false
      else if b0 <? 224 then
        match s1 with
        | String c1 s2 => utf8.cont (byte_val c1) && well_formed s2
        | _ => false
        end
      else if b0 <? 240 then
        let lo := if b0 =? 224 then 160 else 128 in
        let hi := if b0 =? 237 then 159 else 191 in
        match s1 with
        | String c1 (String c2 s3) =>
            (lo <=? byte_val c1) && (byte_val c1 <=? hi) && utf8.cont (byte_val c2)
            && well_formed s3
        | _ => false
        end
      else
        let lo := if b0 =? 240 then 144 else 128 in
        let hi := if b0 =? 244 then 143 else 191 in
        match s1 with
        | String c1 (String c2 (String c3 s4)) =>
            (lo <=? byte_val c1) && (byte_val c1 <=? hi)
            && utf8.cont (byte_val c2) && utf8.cont (byte_val c3)
            && well_formed s4
        | _ => false
        end
  end.

(** The format ["%Y年"] of the package's documentation without its
    specifier: the character U+5E74, three bytes in UTF-8. *)
Definition year_sign : string :=
  String (byte_of 229) (String (byte_of 185) (String (byte_of 180) "")).
(** * Properties *)

(** ** Induction on formats, whose directives take one to four bytes *)

Lemma string_length_ind (P : string -> Prop) :
  (forall f, (forall g, (String.length g < String.length f)%nat -> P g) -> P f) ->
  forall f, P f.
Proof.
  intros step f.
  assert (H : forall n g, (String.length g < n)%nat -> P g).
  { induction n as [|n IH]; intros g Hg; [lia|].
    apply step. intros g' Hg'. apply IH. lia. }
  apply (H (S (String.length f))). lia.
Qed.

Ltac shorter := cbn [String.length]; lia.

(** The loop of [ParseL] is the scanner followed by the directives. *)
Lemma walk_scan (s : string) (locale : Locale) :
  forall format result j,
    walk format s locale result j = run (scan format) s locale result j.
Proof.
  induction format as [format IH] using string_length_ind.
  destruct format as [|c f1]; [reflexivity|].
  intros result j. cbn [walk scan].
  destruct (is_percent c).
  - destruct f1 as [|c1 f2]; [reflexivity|].
    destruct (is_ext c1).
    + destruct f2 as [|c2 f3]; [reflexivity|].
      destruct (is_percent c2).
      * destruct f3 as [|c3 f4]; [reflexivity|].
        cbn [run exec]. destruct (parseSpec c3 s locale result j) as [[r' j']| |];
          cbn [bind fst snd]; try reflexivity. apply IH. shorter.
      * cbn [run exec]. destruct (parseSpec c2 s locale result j) as [[r' j']| |];
          cbn [bind fst snd]; try reflexivity. apply IH. shorter.
    + cbn [run exec]. destruct (parseSpec c1 s locale result j) as [[r' j']| |];
        cbn [bind fst snd]; try reflexivity. apply IH. shorter.
  - cbn [run exec]. destruct (parseLiteral c s result j) as [[r' j']| |];
      cbn [bind fst snd]; try reflexivity. apply IH. shorter.
Qed.

(** A format that scans without an incomplete specifier ends at the end of
    a directive: what is appended to it is scanned on its own. *)
Lemma scan_app (f2 : string) :
  forall f1, well_scanned (scan f1) = true -> scan (f1 ++ f2) = (scan f1 ++ scan f2)%list.
Proof.
  induction f1 as [f1 IH] using string_length_ind.
  destruct f1 as [|c g1]; [reflexivity|].
  cbn [scan String.append]. destruct (is_percent c).
  - destruct g1 as [|c1 g2]; [discriminate|].
    cbn [String.append]. destruct (is_ext c1).
    + destruct g2 as [|c2 g3]; [discriminate|].
      cbn [String.append]. destruct (is_percent c2).
      * destruct g3 as [|c3 g4]; [discriminate|].
        cbn [String.append well_scanned forallb is_incomplete negb andb app].
        intros H. f_equal. apply IH; [shorter|exact H].
      * cbn [well_scanned forallb is_incomplete negb andb app].
        intros H. f_equal. apply IH; [shorter|exact H].
    + cbn [well_scanned forallb is_incomplete negb andb app].
      intros H. f_equal. apply IH; [shorter|exact H].
  - cbn [well_scanned forallb is_incomplete negb andb app].
    intros H. f_equal. apply IH; [shorter|exact H].
Qed.

Lemma run_app (s : string) (locale : Locale) (ds2 : list directive) :
  forall ds1 result j,
    run (ds1 ++ ds2) s locale result j =
    bind (run ds1 s locale result j) (fun st => run ds2 s locale (fst st) (snd st)).
Proof.
  induction ds1 as [|d ds1 IH]; intros result j; [reflexivity|].
  cbn [run app]. destruct (exec d s locale result j) as [[r' j']| |];
    cbn [bind fst snd]; auto.
Qed.

(** Directives that all ran were all complete. *)
Lemma run_value_well_scanned (s : string) (locale : Locale) :
  forall ds result j st,
    run ds s locale result j = Value st -> well_scanned ds = true.
Proof.
  induction ds as [|d ds IH]; intros result j st H; [reflexivity|].
  cbn [run] in H. cbn [well_scanned forallb].
  destruct d as [c|c|e]; cbn [exec is_incomplete negb andb] in *.
  - destruct (parseLiteral c s result j) as [[r' j']| |]; try discriminate.
    cbn [bind fst snd] in H. eapply IH; eauto.
  - destruct (parseSpec c s locale result j) as [[r' j']| |]; try discriminate.
    cbn [bind fst snd] in H. eapply IH; eauto.
  - discriminate.
Qed.

(** The walk over [f1 ++ f2], once the walk over [f1] has come through,
    goes on with [f2] from the state reached. *)
Lemma walk_app (s : string) (locale : Locale) (f1 f2 : string) :
  forall result j result' j',
    walk f1 s locale result j = Value (result', j') ->
    walk (f1 ++ f2) s locale result j = walk f2 s locale result' j'.
Proof.
  intros result j result' j' H.
  rewrite walk_scan in H. rewrite !walk_scan.
  rewrite scan_app by (eapply run_value_well_scanned; eauto).
  rewrite run_app, H. reflexivity.
Qed.

(** ** The package's own tests, on the embedding *)

Example test_Strftime_DefaultLocale :
  Posix.Strftime "%Y-%m-%d %H:%M:%S" afternoon = Some "2025-02-25 15:30:45" /\
  Gnu.Strftime "%Y-%m-%d %H:%M:%S" afternoon = Some "2025-02-25 15:30:45".
Proof. split; reflexivity. Qed.

Example test_Strftime_NilLocale :
  Posix.StrftimeL "%A, %B %d, %Y %H:%M:%S" afternoon None
  = Some "Tuesday, February 25, 2025 15:30:45".
Proof. reflexivity. Qed.

Example test_Strftime_PosixExtension :
  Posix.Strftime "%E%Y" afternoon = Some "2025" /\
  Posix.Strftime "%O%H" afternoon = Some "15" /\
  Gnu.Strftime "%E%%Y" afternoon = Some "%2025" /\
  Gnu.Strftime "%O%%H" afternoon = Some "%15".
Proof. repeat split; reflexivity. Qed.

Example test_Strftime_UnknownSpecifier :
  Posix.Strftime "%X" afternoon = Some "%X" /\ Gnu.Strftime "%Q" afternoon = Some "Q".
Proof. split; reflexivity. Qed.

Example test_Strftime_FormatModifiers :
  Gnu.Strftime "%-d/%-m/%-Y %-H:%-M:%-S" noon = Some "4/7/2025 12:34:56" /\
  Gnu.Strftime "%_d/%_m/%_Y" noon = Some " 4/ 7/2025" /\
  Gnu.Strftime "%0d/%0m/%0Y" noon = Some "04/07/2025".
Proof. repeat split; reflexivity. Qed.

Example test_Strftime_EdgeCases :
  Gnu.Strftime "" noon = Some "" /\
  Gnu.Strftime "Date: %" noon = Some "Date: " /\
  Gnu.Strftime "%%% %%%%" noon = Some "% %%".
Proof. repeat split; reflexivity. Qed.

Example test_Strftime_CompleteFormatCoverage :
  Gnu.Strftime "%j" midnight = Some "001" /\ Gnu.Strftime "%j" noon = Some "185" /\
  Gnu.Strftime "%C" midnight = Some "20" /\ Gnu.Strftime "%g" noon = Some "25" /\
  Gnu.Strftime "%G" midnight = Some "2025".
Proof. repeat split; reflexivity. Qed.

Example test_Parse_DefaultLocale_12Hour :
  Parse "%Y-%m-%d %I:%M:%S %p" "2025-02-25 03:30:45 PM" noon
  = Value (Date 2025 2 25 15 30 45 0 UTC).
Proof. reflexivity. Qed.

Example test_Parse_errors :
  Parse "%C-%m-%d" "2025-02-25" noon = Error (ErrUnsupported "C") /\
  Parse "%Y%" "2025" noon = Error ErrIncompleteAtEnd /\
  Parse "%Y-%m-%d" "2025/02/25" noon = Error (ErrLiteralMismatch 4 "-" "/") /\
  Parse "%Y" "2025X" noon = Error (ErrTrailing 4) /\
  Parse "%E" "2025" noon = Error ErrIncompleteAfterPosix /\
  Parse "%D" "12-31/99" noon = Error ErrSlashAfterMonth /\
  Parse "%Y-%m-%d %I:%M:%S" "2025-02-25 03:30:45" noon = Error ErrMissingAMPM /\
  Parse "%Y-%m-%d %I:%M:%S %p" "2025-02-25 00:30:45 AM" noon = Error (ErrInvalidHour 0).
Proof. repeat split; reflexivity. Qed.

Example test_ParseHelpers :
  parseFixedInt "98765" 0 3 = (987, 3%nat, None) /\
  parseFixedInt "98765" 4 3 = (0, 4%nat, Some (ErrReachedEnd 3 4)) /\
  parseIntVariable "12345" 0 2 4 = (1234, 4%nat, None) /\
  parseIntVariable "12abc" 0 2 4 = (12, 2%nat, None) /\
  parseIntVariable "a123" 0 1 3 = (0, 0%nat, Some (ErrAtLeastDigits 1 0)).
Proof. repeat split; reflexivity. Qed.

(** The runes of a given format, computed. *)
Ltac eval_runes :=
  match goal with
  | |- context [utf8.runes ?f] =>
      let v := eval vm_compute in (utf8.runes f) in
      change (utf8.runes f) with v
  end.

(** ** C10: an unknown specifier *)

(** C10.  Formatting with the unrecognised specifier [%Q] succeeds and
    passes the specifier through as literal text (with its percent sign in
    the first implementation, without it in the second), while [ParseL] on
    the format [%Q] returns the unsupported-conversion-specifier error for
    every input string. *)
Theorem C10_unknown_specifier (t : Time) (locale : option Locale) (s : string) (base : Time) :
  Posix.StrftimeL "%Q" t locale = Some "%Q" /\
  Gnu.StrftimeL "%Q" t locale = Some "Q" /\
  ParseL "%Q" s locale base = Error (ErrUnsupported "Q").
Proof. repeat split; reflexivity. Qed.

(** ** C7: the 12-hour boundary *)



(** ** Bytes of the input *)

Lemma get_beyond (s : string) :
  forall j, (String.length s <= j)%nat -> String.get j s = None.
Proof.
  induction s as [|c s IH]; intros j Hj; [reflexivity|].
  destruct j as [|j]; cbn [String.length] in Hj; [lia|].
  cbn [String.get]. apply IH. lia.
Qed.

Lemma eqb_differs (x c : byte) : x <> c -> Ascii.eqb x c = false.
Proof. intros H. apply Ascii.eqb_neq. exact H. Qed.

(** ** C2: a numeric field that cannot be read *)

(** C2 (the code departs from it).  The claim: where the slice at the cursor
    is too short for a fixed-width numeric specifier or is no number,
    [ParseL] returns a parse error and never a time built from a zero
    field.  The code: [parseFixedInt] returns that error, and [ParseL] drops
    it; the field is set to 0, the cursor stays, and the parse goes on.  With
    the format [%Y] and the empty input, and with [%m] and two blanks,
    [ParseL] returns a time of year 0, of month 0. *)
Theorem C2_field_error_dropped (locale : option Locale) (base : Time) :
  parseFixedInt "" 0 4 = (0, 0%nat, Some (ErrReachedEnd 4 0)) /\
  ParseL "%Y" "" locale base
  = Value (Date 0 (Month base) (Day base) (Hour base) (Minute base) (Second base)
             0 (Location base)) /\
  parseFixedInt "  " 0 2
  = (0, 0%nat, Some (ErrParseInteger "  " 0 (strconv.ErrSyntax "  "))) /\
  ParseL "%m" "  " locale base
  = Value (Date (Year base) 0 (Day base) (Hour base) (Minute base) (Second base)
             0 (Location base)).
Proof. repeat split; reflexivity. Qed.

(** ** C3: a literal of the format *)

(** C3 (the code departs from it).  The format is [f1 ++ c :: f2], the walk
    over [f1] has come through with the cursor at [j], and [c] is a literal.
    Where the input byte at the cursor differs from [c], [ParseL] returns the
    literal-mismatch error with the cursor position, as claimed.  Where the
    input is exhausted, the claim is the same error; the code panics, for
    the message is formatted from [s[j]]. *)
Theorem C3_literal_mismatch (f1 f2 : string) (c : byte) (s : string)
  (locale : option Locale) (base : Time) (result : parseResult) (j : nat) :
  walk f1 s (locale_or_default locale) (initial base) 0 = Value (result, j) ->
  is_percent c = false ->
  (forall x, String.get j s = Some x -> x <> c ->
     ParseL (f1 ++ String c f2) s locale base = Error (ErrLiteralMismatch j c x)) /\
  ((String.length s <= j)%nat ->
     ParseL (f1 ++ String c f2) s locale base = Panic).
Proof.
  intros Hwalk Hc. unfold ParseL.
  rewrite (walk_app _ _ _ _ _ _ _ _ Hwalk).
  cbn [walk]. rewrite Hc. unfold parseLiteral, byte_is. split.
  - intros x Hx Hne. rewrite Hx, (eqb_differs _ _ Hne).
    rewrite orb_true_r. reflexivity.
  - intros Hj. rewrite (get_beyond _ _ Hj). rewrite orb_true_r. reflexivity.
Qed.

Lemma C3_literal_mismatch_witness :
  ParseL "a" "b" None noon = Error (ErrLiteralMismatch 0 "a" "b") /\
  ParseL "a" "" None noon = Panic.
Proof.
  split.
  - destruct (C3_literal_mismatch "" "" "a" "b" None noon (initial noon) 0 eq_refl eq_refl)
      as [H _].
    apply (H "b"%char); [reflexivity|discriminate].
  - destruct (C3_literal_mismatch "" "" "a" "" None noon (initial noon) 0 eq_refl eq_refl)
      as [_ H].
    apply H. cbn. lia.
Defined.

(** The failing input of C3, evaluated: the format "a" on the empty input,
    and a format whose literal follows a specifier. *)
Example C3_panic_on_exhausted_input :
  ParseL "a" "" None noon = Panic /\ ParseL "%Y-" "2025" None noon = Panic.
Proof. split; reflexivity. Qed.

(** ** C9: the two-digit year *)

(** C9.  A two-digit value [v] read with success at the cursor [j] by [%y],
    or as the year portion of [%D], gives the year [2000 + v] when [v < 69]
    and [1900 + v] otherwise; parsing "68" with [%y] yields the year 2068 and
    "69" the year 1969. *)
Theorem C9_two_digit_year_pivot (s : string) (locale : Locale) (result : parseResult)
  (j : nat) (v : Z) (j' : nat) :
  parseFixedInt s j 2 = (v, j', None) ->
  parseSpec "y" s locale result j
  = Value (set_year result (if v <? 69 then 2000 + v else 1900 + v), j') /\
  (forall j0 mo j1 e1 dd j2 e2,
     parseFixedInt s j0 2 = (mo, j1, e1) -> byte_is s j1 "/" = true ->
     parseFixedInt s (S j1) 2 = (dd, j2, e2) -> byte_is s j2 "/" = true ->
     S j2 = j ->
     parseSpec "D" s locale result j0
     = Value (set_year (set_day (set_month result mo) dd)
                (if v <? 69 then 2000 + v else 1900 + v), j')) /\
  (forall base,
     ParseL "%y" "68" (Some locale) base
     = Value (Date 2068 (Month base) (Day base) (Hour base) (Minute base) (Second base)
                0 (Location base)) /\
     ParseL "%y" "69" (Some locale) base
     = Value (Date 1969 (Month base) (Day base) (Hour base) (Minute base) (Second base)
                0 (Location base))).
Proof.
  intros Hv. repeat split; try reflexivity.
  - cbn [parseSpec]. rewrite Hv. reflexivity.
  - intros j0 mo j1 e1 dd j2 e2 Hmo Hs1 Hdd Hs2 Hj. subst j.
    cbn [parseSpec]. rewrite Hmo, Hs1. cbn [negb]. rewrite Hdd, Hs2. cbn [negb].
    rewrite Hv. reflexivity.
Qed.

Lemma C9_two_digit_year_pivot_witness :
  parseSpec "y" "01/02/68" DefaultLocale (initial noon) 6
  = Value (set_year (initial noon) 2068, 8%nat) /\
  parseSpec "D" "01/02/68" DefaultLocale (initial noon) 0
  = Value (set_year (set_day (set_month (initial noon) 1) 2) 2068, 8%nat).
Proof.
  destruct (C9_two_digit_year_pivot "01/02/68" DefaultLocale (initial noon) 6 68 8
              eq_refl) as [Hy [HD _]].
  split; [exact Hy|].
  apply (HD 0%nat 1 2%nat None 2 5%nat None); reflexivity.
Defined.

(** ** C5: the POSIX extension prefix *)

(** C5, refuted as stated: in the second implementation of [StrftimeL] the
    format [%E%Y] does not give what [%Y] gives; the percent sign after the
    prefix is itself taken as the specifier, and [Y] follows as a literal. *)
Lemma C5_counterexample :
  Gnu.StrftimeL "%E%Y" afternoon None = Some "%Y" /\
  Gnu.StrftimeL "%Y" afternoon None = Some "2025" /\
  Gnu.StrftimeL "%E%Y" afternoon None <> Gnu.StrftimeL "%Y" afternoon None.
Proof. repeat split; try reflexivity. discriminate. Qed.

(** C5, amended.  In both implementations [%EY] and [%OY] format as [%Y]
    does: the prefix is consumed and has no effect.  The spelling [%E%Y] is
    equivalent to [%Y] in the first implementation only; the second renders
    it as a percent sign followed by the letter Y. *)
Theorem C5_extension_prefix (t : Time) (locale : option Locale) :
  Posix.StrftimeL "%Y" t locale = Some (fmt.Sprintf_0d 4 (Year t)) /\
  Posix.StrftimeL "%EY" t locale = Posix.StrftimeL "%Y" t locale /\
  Posix.StrftimeL "%OY" t locale = Posix.StrftimeL "%Y" t locale /\
  Posix.StrftimeL "%E%Y" t locale = Posix.StrftimeL "%Y" t locale /\
  Posix.StrftimeL "%O%Y" t locale = Posix.StrftimeL "%Y" t locale /\
  Gnu.StrftimeL "%Y" t locale = Some (Gnu.formatInt (Year t) 4 "0") /\
  Gnu.StrftimeL "%EY" t locale = Gnu.StrftimeL "%Y" t locale /\
  Gnu.StrftimeL "%OY" t locale = Gnu.StrftimeL "%Y" t locale /\
  Gnu.StrftimeL "%E%Y" t locale = Some "%Y" /\
  Gnu.StrftimeL "%O%Y" t locale = Some "%Y".
Proof. repeat split; reflexivity. Qed.

(** ** C4: a percent sign that ends the format *)

Lemma list_length_ind {A : Type} (P : list A -> Prop) :
  (forall l, (forall l', (List.length l' < List.length l)%nat -> P l') -> P l) ->
  forall l, P l.
Proof.
  intros step l.
  assert (H : forall n l', (List.length l' < n)%nat -> P l').
  { induction n as [|n IH]; intros l' Hl; [lia|].
    apply step. intros l'' Hl'. apply IH. lia. }
  apply (H (S (List.length l))). lia.
Qed.



(** The conversion to runes, one step. *)
Lemma runes_step (c0 : byte) (s1 : string) :
  utf8.runes (String c0 s1) =
  let b0 := byte_val c0 in
  if b0 <? 128 then b0 :: utf8.runes s1
  else if (b0 <? 194) || (244 <? b0) then utf8.RuneError :: utf8.runes s1
  else if b0 <? 224 then
    match s1 with
    | String c1 s2 =>
        if utf8.cont (byte_val c1)
        then Z.lor (Z.shiftl (Z.land b0 31) 6) (utf8.low6 (byte_val c1)) :: utf8.runes s2
        else utf8.RuneError :: utf8.runes s1
    | _ => utf8.RuneError :: utf8.runes s1
    end
  else if b0 <? 240 then
    let lo := if b0 =? 224 then 160 else 128 in
    let hi := if b0 =? 237 then 159 else 191 in
    match s1 with
    | String c1 (String c2 s3) =>
        if (lo <=? byte_val c1) && (byte_val c1 <=? hi) && utf8.cont (byte_val c2)
        then Z.lor (Z.shiftl (Z.land b0 15) 12)
               (Z.lor (Z.shiftl (utf8.low6 (byte_val c1)) 6) (utf8.low6 (byte_val c2)))
             :: utf8.runes s3
        else utf8.RuneError :: utf8.runes s1
    | _ => utf8.RuneError :: utf8.runes s1
    end
  else
    let lo := if b0 =? 240 then 144 else 128 in
    let hi := if b0 =? 244 then 143 else 191 in
    match s1 with
    | String c1 (String c2 (String c3 s4)) =>
        if (lo <=? byte_val c1) && (byte_val c1 <=? hi)
           && utf8.cont (byte_val c2) && utf8.cont (byte_val c3)
        then Z.lor (Z.shiftl (Z.land b0 7) 18)
               (Z.lor (Z.shiftl (utf8.low6 (byte_val c1)) 12)
                  (Z.lor (Z.shiftl (utf8.low6 (byte_val c2)) 6) (utf8.low6 (byte_val c3))))
             :: utf8.runes s4
        else utf8.RuneError :: utf8.runes s1
    | _ => utf8.RuneError :: utf8.runes s1
    end.
Proof. reflexivity. Qed.



(** ** Formatting never fails

    Within the contract of the locale and of the calendar no name table is
    indexed out of range, and both implementations return a string for
    every format. *)

Lemma index_within (names : list string) (i : Z) :
  0 <= i < Z.of_nat (List.length names) -> exists name, index names i = Some name.
Proof.
  intros Hi. unfold index. rewrite (proj2 (Z.ltb_ge i 0)) by lia.
  destruct (nth_error names (Z.to_nat i)) as [name|] eqn:E; [exists name; reflexivity|].
  apply nth_error_None in E. lia.
Qed.

Lemma default_locale_ok : locale_ok DefaultLocale.
Proof. repeat split. Qed.

Ltac name_lookup Hloc Ht :=
  destruct Hloc as (HWF & HWA & HMF & HMA); destruct Ht as (Hwd & Hmo);
  match goal with
  | |- context [index ?l ?i] =>
      let name := fresh "name" in
      let E := fresh "E" in
      destruct (index_within l i) as [name E];
      [ first [rewrite HWF | rewrite HWA | rewrite HMF | rewrite HMA]; lia
      | rewrite E; eexists; reflexivity ]
  end.

Lemma Gnu_conv_total (t : Time) (loc : Locale) (c : byte) (padWidth : nat) (padChar : byte) :
  locale_ok loc -> calendar_ok t ->
  exists out, Gnu.conv c padWidth padChar t loc = Some out.
Proof.
  intros Hloc Ht.
  destruct c as [[] [] [] [] [] [] [] []]; cbn [Gnu.conv];
    first [ eexists; reflexivity
          | destruct (Hour t <? 12); eexists; reflexivity
          | name_lookup Hloc Ht ].
Qed.

Lemma Posix_conv_total (t : Time) (locale : Locale) (spec : Z) :
  locale_ok locale -> calendar_ok t ->
  exists out, Posix.conv spec t locale = Some out.
Proof.
  intros Hloc Ht. unfold Posix.conv.
  destruct (Posix.rune_char spec) as [c|]; [|eexists; reflexivity].
  destruct c as [[] [] [] [] [] [] [] []];
    first [ eexists; reflexivity
          | destruct (Hour t <? 12); eexists; reflexivity
          | cbv zeta;
            match goal with
            | |- context [if ?b then index _ _ else _] =>
                destruct b; [|eexists; reflexivity]
            end;
            name_lookup Hloc Ht
          | name_lookup Hloc Ht ].
Qed.

Lemma Gnu_loop_total (t : Time) (loc : Locale) :
  locale_ok loc -> calendar_ok t ->
  forall f result, exists out, Gnu.loop f t loc result = Some out.
Proof.
  intros Hloc Ht.
  induction f as [f IH] using string_length_ind.
  intros result. destruct f as [|c f1]; [eexists; reflexivity|].
  cbn [Gnu.loop]. destruct (negb (Gnu.is_percent c)); [apply IH; shorter|].
  destruct f1 as [|c1 f2]; [eexists; reflexivity|].
  destruct (Gnu.is_percent c1); [apply IH; shorter|].
  destruct (Gnu.is_modifier c1).
  - destruct f2 as [|c2 f3]; [eexists; reflexivity|].
    destruct (Gnu.is_ext c2).
    + destruct f3 as [|c3 f4]; [eexists; reflexivity|].
      destruct (Gnu_conv_total t loc c3 (Gnu.padWidth_of c1) (Gnu.padChar_of c1) Hloc Ht)
        as [o ->]. apply IH; shorter.
    + destruct (Gnu_conv_total t loc c2 (Gnu.padWidth_of c1) (Gnu.padChar_of c1) Hloc Ht)
        as [o ->]. apply IH; shorter.
  - destruct (Gnu.is_ext c1).
    + destruct f2 as [|c3 f4]; [eexists; reflexivity|].
      destruct (Gnu_conv_total t loc c3 (Gnu.padWidth_of c1) (Gnu.padChar_of c1) Hloc Ht)
        as [o ->]. apply IH; shorter.
    + destruct (Gnu_conv_total t loc c1 (Gnu.padWidth_of c1) (Gnu.padChar_of c1) Hloc Ht)
        as [o ->]. apply IH; shorter.
Qed.

Lemma Posix_loop_total (t : Time) (locale : Locale) :
  locale_ok locale -> calendar_ok t ->
  forall rs b, exists out, Posix.loop rs t locale b = Some out.
Proof.
  intros Hloc Ht.
  induction rs as [rs IH] using list_length_ind.
  intros b. destruct rs as [|r rs1]; [eexists; reflexivity|].
  cbn [Posix.loop]. destruct (Posix.is_percent r); [|apply IH; cbn [List.length]; lia].
  destruct rs1 as [|r1 rs2]; [eexists; reflexivity|].
  destruct (Posix.is_ext r1).
  - destruct rs2 as [|r2 rs3]; [eexists; reflexivity|].
    destruct (Posix.is_percent r2).
    + destruct rs3 as [|r3 rs4]; [eexists; reflexivity|].
      destruct (Posix_conv_total t locale r3 Hloc Ht) as [o ->].
      apply IH; cbn [List.length]; lia.
    + destruct (Posix_conv_total t locale r2 Hloc Ht) as [o ->].
      apply IH; cbn [List.length]; lia.
  - destruct (Posix_conv_total t locale r1 Hloc Ht) as [o ->].
    apply IH; cbn [List.length]; lia.
Qed.

(** Both implementations of [StrftimeL] return a string. *)
Lemma StrftimeL_total (format : string) (t : Time) (locale : option Locale) :
  locale_ok (locale_or_default locale) -> calendar_ok t ->
  (exists out, Posix.StrftimeL format t locale = Some out) /\
  (exists out, Gnu.StrftimeL format t locale = Some out).
Proof.
  intros Hloc Ht. split.
  - apply Posix_loop_total; assumption.
  - apply Gnu_loop_total; assumption.
Qed.




(** ** The shape of a directive *)

Lemma spec_cases (c : byte) :
  In c specifiers \/
  forall s locale result j, parseSpec c s locale result j = Error (ErrUnsupported c).
Proof.
  destruct c as [[] [] [] [] [] [] [] []];
    first [ right; intros; reflexivity
          | left; unfold specifiers; repeat (first [left; reflexivity | right]) ].
Qed.

(** The assignments written in an expression [e] over the accumulator [r]. *)
Ltac reify_updates e r :=
  lazymatch e with
  | r => constr:(@nil update)
  | set_hour12 (set_hour ?e' ?v) true =>
      let us := reify_updates e' r in constr:((us ++ [SetTwelve v])%list)
  | set_year ?e' ?v =>
      let us := reify_updates e' r in constr:((us ++ [SetField FYear v])%list)
  | set_month ?e' ?v =>
      let us := reify_updates e' r in constr:((us ++ [SetField FMonth v])%list)
  | set_day ?e' ?v =>
      let us := reify_updates e' r in constr:((us ++ [SetField FDay v])%list)
  | set_hour ?e' ?v =>
      let us := reify_updates e' r in constr:((us ++ [SetField FHour v])%list)
  | set_minute ?e' ?v =>
      let us := reify_updates e' r in constr:((us ++ [SetField FMinute v])%list)
  | set_second ?e' ?v =>
      let us := reify_updates e' r in constr:((us ++ [SetField FSecond v])%list)
  | set_ampm ?e' ?pm =>
      let us := reify_updates e' r in constr:((us ++ [SetAMPM pm])%list)
  end.

Ltac scrutinee_step :=
  match goal with
  | |- context [parseFixedInt ?s ?j ?n] => destruct (parseFixedInt s j n) as [[? ?] ?]
  | |- context [parseIntVariable ?s ?j ?a ?b] =>
      destruct (parseIntVariable s j a b) as [[? ?] ?]
  | |- context [byte_is ?s ?j ?c] => destruct (byte_is s j c)
  | |- context [matches_at ?s ?j ?n] => destruct (matches_at s j n)
  | |- context [first_match ?l ?s ?j ?i] => destruct (first_match l s j i) as [[? ?]|]
  end; cbn [negb].

Ltac shape_done :=
  first
    [ right; left; eexists; intros; reflexivity
    | left; eexists; eexists; split;
      [ intros r;
        match goal with
        | |- Value (?e, ?j) = Value (apply_updates ?us _, _) =>
            let l := reify_updates e r in unify us l; reflexivity
        end
      | split; [ reflexivity
               | cbn; intros H; first [ discriminate H | eexists; reflexivity ] ] ] ].

Lemma exec_shape (d : directive) (s : string) (locale : Locale) (j : nat) :
  shape_of d s locale j.
Proof.
  unfold shape_of. destruct d as [c|c|e]; cbn [exec].
  - unfold parseLiteral.
    destruct ((String.length s <=? j)%nat || negb (byte_is s j c)).
    + destruct (String.get j s).
      * right; left; eexists; intros; reflexivity.
      * right; right; intros; reflexivity.
    + shape_done.
  - destruct (spec_cases c) as [Hin|Hun].
    + unfold specifiers in Hin. cbn [In] in Hin.
      repeat (destruct Hin as [<-|Hin]; [cbn [parseSpec]; repeat scrutinee_step; shape_done|]).
      contradiction.
    + right; left. exists (ErrUnsupported c). intros r. apply Hun.
  - right; left; eexists; intros; reflexivity.
Qed.

Lemma apply_updates_app (us1 us2 : list update) (r : parseResult) :
  apply_updates (us1 ++ us2) r = apply_updates us2 (apply_updates us1 r).
Proof. unfold apply_updates. apply fold_left_app. Qed.

Lemma forallb_weaken {A : Type} (p q : A -> bool) (l : list A) :
  (forall x, p x = true -> q x = true) -> forallb p l = true -> forallb q l = true.
Proof.
  intros Hpq H. apply forallb_forall. intros x Hx.
  apply Hpq. exact (proj1 (forallb_forall p l) H x Hx).
Qed.

(** The shape of a sequence of directives. *)
Lemma run_shape (s : string) (locale : Locale) :
  forall ds j, run_shape_of ds s locale j.
Proof.
  unfold run_shape_of.
  induction ds as [|d ds IH]; intros j.
  { left. exists [], j. repeat split; auto. }
  destruct (exec_shape d s locale j) as [(us & j1 & Hex & Hperm & Htw)|[(e & He)|Hp]].
  - destruct (IH j1) as [(us' & j2 & Hrun & Hperm' & Htw')|[(e & He)|Hp]].
    + left. exists (us ++ us')%list, j2. split; [|split].
      * intros r. cbn [run]. rewrite Hex. cbn [bind fst snd].
        rewrite Hrun, apply_updates_app. reflexivity.
      * rewrite forallb_app. apply andb_true_intro. split.
        -- revert Hperm. apply forallb_weaken. intros u Hu.
           cbn [existsb]. rewrite Hu. reflexivity.
        -- revert Hperm'. apply forallb_weaken. intros u Hu.
           cbn [existsb]. rewrite Hu. apply orb_true_r.
      * cbn [existsb]. rewrite existsb_app. intros H.
        apply orb_true_iff in H. destruct H as [H|H].
        -- destruct (Htw H) as [v ->]. reflexivity.
        -- rewrite (Htw' H). apply orb_true_r.
    + right; left. exists e. intros r. cbn [run]. rewrite Hex. apply He.
    + right; right. intros r. cbn [run]. rewrite Hex. apply Hp.
  - right; left. exists e. intros r. cbn [run]. rewrite He. reflexivity.
  - right; right. intros r. cbn [run]. rewrite Hp. reflexivity.
Qed.

(** *** What assignments do to the accumulator *)


Lemma apply_updates_hour12 :
  forall us r, hour12 (apply_updates us r) = hour12 r || existsb is_twelve us.
Proof.
  unfold apply_updates.
  induction us as [|u us IH]; intros r; cbn [fold_left existsb].
  - rewrite orb_false_r. reflexivity.
  - rewrite IH. destruct u as [[] v|v|pm]; cbn; try reflexivity.
    destruct (hour12 r); reflexivity.
Qed.

Lemma apply_updates_ampmSet :
  forall us r, ampmSet (apply_updates us r) = ampmSet r || existsb is_ampm us.
Proof.
  unfold apply_updates.
  induction us as [|u us IH]; intros r; cbn [fold_left existsb].
  - rewrite orb_false_r. reflexivity.
  - rewrite IH. destruct u as [[] v|v|pm]; cbn; try reflexivity.
    destruct (ampmSet r); reflexivity.
Qed.




(** An AM/PM assignment comes from a [%p]. *)
Lemma ampm_from_p (format : string) (us : list update) :
  forallb (fun u => existsb (fun d => permits d u) (scan format)) us = true ->
  existsb is_ampm us = true -> has_spec format "p" = true.
Proof.
  intros Hall Hex. apply existsb_exists in Hex. destruct Hex as (u & Hu & Hampm).
  pose proof (proj1 (forallb_forall _ _) Hall u Hu) as Hd.
  apply existsb_exists in Hd. destruct Hd as (d & Hd & Hp).
  destruct d as [c|c|e]; cbn [permits] in Hp; try discriminate.
  destruct u as [f v|v|pm]; try discriminate. cbn [allowed] in Hp.
  unfold has_spec. apply existsb_exists. exists (Spec c). split; assumption.
Qed.

(** *** What follows the loop *)




(** ** C6: the clock *)




(** ** C8: the 12-hour clock *)

(** C8, refuted as stated: the check after the loop reads the hour the
    accumulator holds, not the value [%I] consumed.  With the format
    [%I%H%p] on "1305AM", [%I] consumes 13, [%H] then sets the hour to 5,
    and [ParseL] returns a time; and with [%I] alone and a literal after
    it on the input "05", the call panics and returns no error. *)
Lemma C8_counterexample :
  has_spec "%I%H%p" "I" = true /\
  parseFixedInt "1305AM" 0 2 = (13, 2%nat, None) /\
  ParseL "%I%H%p" "1305AM" None noon = Value (Date 2025 7 4 5 34 56 0 UTC) /\
  ParseL "%I." "05" None noon = Panic.
Proof. repeat split; reflexivity. Qed.

(** C8, amended.  For every parse whose format has [%I]: a time is returned
    only when [%p] also appears in the format and the hour the accumulator
    holds at the end of the loop, the value of the last [%I] or [%H], lies
    in 1 to 12; and once the loop has come through, [ParseL] returns an
    error if [%p] does not appear or if that hour lies outside 1 to 12. *)
Theorem C8_twelve_hour_checks (format s : string) (locale : option Locale) (base : Time) :
  has_spec format "I" = true ->
  (forall d, ParseL format s locale base = Value d ->
     has_spec format "p" = true /\
     exists r j,
       walk format s (locale_or_default locale) (initial base) 0 = Value (r, j) /\
       hour12 r = true /\ ampmSet r = true /\ 1 <= hour r <= 12) /\
  (forall r j,
     walk format s (locale_or_default locale) (initial base) 0 = Value (r, j) ->
     has_spec format "p" = false \/ hour r < 1 \/ 12 < hour r ->
     exists e, ParseL format s locale base = Error e).
Proof.
  intros HI. unfold ParseL. rewrite !walk_scan.
  destruct (run_shape s (locale_or_default locale) (scan format) 0)
    as [(us & j' & Hrun & Hperm & Htw)|[(e0 & He)|Hp]].
  - rewrite !Hrun. cbn [bind fst snd].
    assert (H12 : hour12 (apply_updates us (initial base)) = true).
    { rewrite apply_updates_hour12, (Htw HI). apply orb_true_r. }
    assert (Hp : ampmSet (apply_updates us (initial base)) = true ->
                 has_spec format "p" = true).
    { rewrite apply_updates_ampmSet. cbn [initial ampmSet orb].
      apply ampm_from_p. exact Hperm. }
    split.
    + intros d Hd. unfold finish in Hd. rewrite H12 in Hd.
      destruct (negb (_ =? _)%nat); [discriminate|].
      destruct (ampmSet (apply_updates us (initial base))) eqn:Hset; [|discriminate].
      cbn [andb negb] in Hd.
      destruct ((hour _ <? 1) || (12 <? hour _)) eqn:Hrange; [discriminate|].
      apply orb_false_elim in Hrange. destruct Hrange as [Hlo Hhi].
      apply Z.ltb_ge in Hlo. apply Z.ltb_ge in Hhi.
      split; [apply Hp; reflexivity|].
      exists (apply_updates us (initial base)), j'. auto.
    + intros r j Hr Hbad. injection Hr as <- <-.
      unfold finish. rewrite H12.
      destruct (negb (_ =? _)%nat); [eexists; reflexivity|].
      destruct (ampmSet (apply_updates us (initial base))) eqn:Hset;
        cbn [andb negb]; [|eexists; reflexivity].
      destruct Hbad as [Hnop|Hbad]; [rewrite (Hp eq_refl) in Hnop; discriminate|].
      assert (Hrange : (hour (apply_updates us (initial base)) <? 1)
                       || (12 <? hour (apply_updates us (initial base))) = true).
      { apply orb_true_iff. destruct Hbad as [Hlo|Hhi];
          [left|right]; apply Z.ltb_lt; assumption. }
      rewrite Hrange. eexists; reflexivity.
  - rewrite !He. cbn [bind]. split; intros; discriminate.
  - rewrite !Hp. cbn [bind]. split; intros; discriminate.
Qed.

Lemma C8_twelve_hour_checks_witness :
  (has_spec "%I:%M %p" "p" = true /\
   exists r j,
     walk "%I:%M %p" "03:30 PM" DefaultLocale (initial noon) 0 = Value (r, j) /\
     hour12 r = true /\ ampmSet r = true /\ 1 <= hour r <= 12) /\
  (exists e, ParseL "%I:%M" "03:30" None noon = Error e).
Proof.
  split.
  - destruct (C8_twelve_hour_checks "%I:%M %p" "03:30 PM" None noon eq_refl) as [H _].
    apply (H (Date 2025 7 4 15 30 56 0 UTC)). reflexivity.
  - destruct (C8_twelve_hour_checks "%I:%M" "03:30" None noon eq_refl) as [_ H].
    apply (H (set_minute (set_hour12 (set_hour (initial noon) 3) true) 30) 5%nat).
    + reflexivity.
    + left. reflexivity.
Defined.

(** ** C1: formatting, then parsing *)

(** *** Decimal digits, written and read *)

Lemma fast_digits_uint :
  forall d acc,
    strconv.fast_digits (NilEmpty.string_of_uint d) acc = Some (digits_value d acc).
Proof.
  induction d; intros acc; cbn [NilEmpty.string_of_uint strconv.fast_digits digits_value];
    [reflexivity|..]; apply IHd.
Qed.

Lemma digits_value_pos :
  forall d p, digits_value d (Z.pos p) = Z.pos (Pos.of_uint_acc d p).
Proof.
  induction d; intros p; cbn [digits_value Pos.of_uint_acc]; [reflexivity|..];
    rewrite <- IHd; f_equal; lia.
Qed.

Lemma digits_value_0 : forall d, digits_value d 0 = Z.of_N (Pos.of_uint d).
Proof.
  induction d; cbn [digits_value Pos.of_uint]; [reflexivity|exact IHd|..];
    apply (digits_value_pos d).
Qed.

(** [strconv.Atoi]'s loop reads back the number [strconv.Itoa] wrote. *)
Lemma fast_digits_udec (v : Z) :
  0 <= v -> strconv.fast_digits (strconv.udec v) 0 = Some v.
Proof.
  intros Hv. unfold strconv.udec.
  destruct (Z.to_N v) as [|p] eqn:E.
  - assert (v = 0) by lia. subst v. reflexivity.
  - cbn [N.to_uint].
    assert (Hnil : NilZero.string_of_uint (Pos.to_uint p)
                   = NilEmpty.string_of_uint (Pos.to_uint p)).
    { pose proof (Unsigned.to_uint_nonnil p) as Hn.
      destruct (Pos.to_uint p); [contradiction|reflexivity..]. }
    rewrite Hnil, fast_digits_uint, digits_value_0, Unsigned.of_to.
    f_equal. lia.
Qed.

Lemma fast_digits_zeros (s : string) :
  forall k, strconv.fast_digits (Repeat "0" k ++ s) 0 = strconv.fast_digits s 0.
Proof.
  induction k as [|k IH]; [reflexivity|].
  cbn [Repeat String.append strconv.fast_digits]. exact IH.
Qed.

Lemma digit_is_no_sign (c : byte) :
  is_digit c = true -> Ascii.eqb c "-" = false /\ Ascii.eqb c "+" = false.
Proof.
  intros H. split.
  - destruct (Ascii.eqb c "-") eqn:E; [|reflexivity].
    apply Ascii.eqb_eq in E. subst c. discriminate H.
  - destruct (Ascii.eqb c "+") eqn:E; [|reflexivity].
    apply Ascii.eqb_eq in E. subst c. discriminate H.
Qed.

(** [strconv.Atoi] on 1 to 18 decimal digits. *)
Lemma Atoi_digits (s : string) (n : Z) :
  all_digits s = true -> (0 < String.length s < 19)%nat ->
  strconv.fast_digits s 0 = Some n -> strconv.Atoi s = (n, None).
Proof.
  intros Hd Hl Hn. unfold strconv.Atoi. cbv zeta.
  replace ((0 <? String.length s)%nat && (String.length s <? 19)%nat) with true.
  2:{ symmetry. apply andb_true_intro. split; apply Nat.ltb_lt; lia. }
  destruct s as [|c rest]; [cbn in Hl; lia|].
  cbn [all_digits] in Hd. apply andb_prop in Hd. destruct Hd as [Hc _].
  destruct (digit_is_no_sign c Hc) as [-> ->]. cbn [orb andb].
  rewrite Hn. reflexivity.
Qed.

(** What being rendered at a fixed width gives: the field is not negative,
    the second implementation renders it as the first does, and
    [strconv.Atoi] reads it back. *)
Lemma fixed_width_field (w : nat) (v : Z) :
  (0 < w < 19)%nat -> fixed_width w v = true ->
  String.length (fmt.Sprintf_0d w v) = w /\
  Gnu.formatInt v w "0" = fmt.Sprintf_0d w v /\
  strconv.Atoi (fmt.Sprintf_0d w v) = (v, None).
Proof.
  intros Hw H. unfold fixed_width in H. apply andb_prop in H. destruct H as [Hlen Hdig].
  apply Nat.eqb_eq in Hlen.
  assert (Hv : 0 <= v).
  { destruct (Z.ltb_spec v 0) as [Hneg|]; [|assumption].
    unfold fmt.Sprintf_0d in Hdig. rewrite (proj2 (Z.ltb_lt v 0) Hneg) in Hdig.
    discriminate Hdig. }
  assert (Hpos : (v <? 0) = false) by (apply Z.ltb_ge; exact Hv).
  assert (Hout : fmt.Sprintf_0d w v
                 = Repeat "0" (w - String.length (strconv.udec v)) ++ strconv.udec v).
  { unfold fmt.Sprintf_0d. rewrite Hpos. reflexivity. }
  split; [exact Hlen|]. split.
  - unfold Gnu.formatInt, strconv.Itoa. rewrite Hpos, Hout.
    destruct (w <=? String.length (strconv.udec v))%nat eqn:E; [|reflexivity].
    apply Nat.leb_le in E.
    replace (w - String.length (strconv.udec v))%nat with 0%nat by lia.
    reflexivity.
  - apply Atoi_digits; [exact Hdig|lia|].
    rewrite Hout, fast_digits_zeros. apply fast_digits_udec. exact Hv.
Qed.

Lemma length_two (s : string) :
  String.length s = 2%nat -> exists a b, s = String a (String b "").
Proof.
  destruct s as [|a [|b [|c s]]]; cbn; intros H; try discriminate.
  exists a, b. reflexivity.
Qed.


(** A field of two digits: its rendering in both implementations, and what
    [strconv.Atoi] reads from it. *)
Lemma two_digit_field (v : Z) :
  fixed_width 2 v = true ->
  exists a b,
    fmt.Sprintf_0d 2 v = String a (String b "") /\
    Gnu.formatInt v 2 "0" = String a (String b "") /\
    strconv.Atoi (String a (String b "")) = (v, None).
Proof.
  intros Hv. destruct (fixed_width_field 2 v ltac:(lia) Hv) as (Hl & Hg & Ha).
  destruct (length_two _ Hl) as (a & b & E). exists a, b.
  rewrite Hg, <- E. auto.
Qed.


(** A property checked on every number below [n]. *)
Lemma below_forallb (p : Z -> bool) (n : Z) :
  forallb p (map Z.of_nat (seq 0 (Z.to_nat n))) = true ->
  forall v, 0 <= v < n -> p v = true.
Proof.
  intros H v Hv. rewrite forallb_forall in H. apply H.
  apply in_map_iff. exists (Z.to_nat v). split; [lia|].
  apply in_seq. lia.
Qed.

(** The fields of the times of the calendar are rendered at the fixed
    widths: the month, day, hour, minute and second always, the year from
    0 to 9999. *)
Lemma two_digits_fixed_width (v : Z) : 0 <= v <= 99 -> fixed_width 2 v = true.
Proof.
  intros Hv. apply (below_forallb (fixed_width 2) 100); [|lia].
  vm_compute. reflexivity.
Qed.

Lemma four_digits_fixed_width (v : Z) : 0 <= v <= 9999 -> fixed_width 4 v = true.
Proof.
  intros Hv. apply (below_forallb (fixed_width 4) 10000); [|lia].
  vm_compute. reflexivity.
Qed.



(** ** The cursor stays within the input

    The slice expressions [s[j:]] and [s[j:j+n]] of [ParseL] panic when the
    cursor exceeds [len(s)].  It never does: every directive that comes
    through leaves the cursor within the input, so that these expressions
    are evaluated as [matches_at] and [parseFixedInt] have them. *)

Lemma get_some_lt (s : string) (j : nat) (c : byte) :
  String.get j s = Some c -> (j < String.length s)%nat.
Proof.
  intros H. destruct (Nat.lt_ge_cases j (String.length s)) as [Hlt|Hge]; [exact Hlt|].
  rewrite (get_beyond _ _ Hge) in H. discriminate.
Qed.

Lemma byte_is_lt (s : string) (j : nat) (c : byte) :
  byte_is s j c = true -> (j < String.length s)%nat.
Proof.
  unfold byte_is. destruct (String.get j s) as [x|] eqn:E; [|discriminate].
  intros _. exact (get_some_lt _ _ _ E).
Qed.

Lemma parseFixedInt_bound (s : string) (pos n : nat) (v : Z) (pos' : nat) (e : option error) :
  parseFixedInt s pos n = (v, pos', e) ->
  (pos <= String.length s)%nat -> (pos' <= String.length s)%nat.
Proof.
  unfold parseFixedInt.
  destruct (String.length s <? pos + n)%nat eqn:E.
  - intros H. injection H as _ <- _. auto.
  - apply Nat.ltb_ge in E.
    destruct (strconv.Atoi _) as [x [err|]]; intros H; injection H as _ <- _; lia.
Qed.

(** A numeric field that cannot be read gives 0 and leaves the cursor. *)
Lemma parseFixedInt_failure (s : string) (pos n : nat) (v : Z) (pos' : nat) (e : error) :
  parseFixedInt s pos n = (v, pos', Some e) -> v = 0 /\ pos' = pos.
Proof.
  unfold parseFixedInt.
  destruct (String.length s <? pos + n)%nat.
  - intros H. injection H as <- <- _. auto.
  - destruct (strconv.Atoi _) as [x [err|]]; intros H.
    + injection H as <- <- _. auto.
    + discriminate.
Qed.

Lemma digit_run_bound (s : string) :
  forall left pos,
    (pos <= String.length s)%nat -> (digit_run s pos left <= String.length s)%nat.
Proof.
  induction left as [|left IH]; intros pos Hpos; cbn [digit_run]; [exact Hpos|].
  destruct (String.get pos s) as [c|] eqn:E; [|exact Hpos].
  destruct (is_digit c); [|exact Hpos].
  apply IH. apply get_some_lt in E. lia.
Qed.

Lemma parseIntVariable_bound (s : string) (pos lo hi : nat) (v : Z) (pos' : nat)
  (e : option error) :
  parseIntVariable s pos lo hi = (v, pos', e) ->
  (pos <= String.length s)%nat -> (pos' <= String.length s)%nat.
Proof.
  unfold parseIntVariable. cbv zeta. intros H Hpos.
  pose proof (digit_run_bound s hi pos Hpos) as Hrun.
  destruct (_ <? lo)%nat.
  - injection H as _ <- _. exact Hpos.
  - destruct (strconv.Atoi _) as [x [err|]]; injection H as _ <- _; assumption.
Qed.

Lemma matches_at_bound (s : string) (j : nat) (name : string) :
  matches_at s j name = true ->
  (j <= String.length s)%nat -> (j + String.length name <= String.length s)%nat.
Proof.
  unfold matches_at. intros H Hj. apply andb_prop in H. destruct H as [H _].
  apply Nat.leb_le in H. lia.
Qed.

Lemma first_match_matches (s : string) (j : nat) :
  forall names i k name,
    first_match names s j i = Some (k, name) -> matches_at s j name = true.
Proof.
  induction names as [|n names IH]; intros i k name H; [discriminate|].
  cbn [first_match] in H. destruct (matches_at s j n) eqn:E.
  - injection H as _ <-. exact E.
  - eapply IH; eauto.
Qed.

Ltac bound_step :=
  match goal with
  | H : context [parseFixedInt ?s ?j ?n] |- _ =>
      let E := fresh "E" in
      destruct (parseFixedInt s j n) as [[? ?] ?] eqn:E;
      pose proof (parseFixedInt_bound _ _ _ _ _ _ E); clear E
  | H : context [parseIntVariable ?s ?j ?a ?b] |- _ =>
      let E := fresh "E" in
      destruct (parseIntVariable s j a b) as [[? ?] ?] eqn:E;
      pose proof (parseIntVariable_bound _ _ _ _ _ _ _ E); clear E
  | H : context [byte_is ?s ?j ?c] |- _ =>
      let E := fresh "E" in
      destruct (byte_is s j c) eqn:E; [apply byte_is_lt in E|clear E]
  | H : context [matches_at ?s ?j ?n] |- _ =>
      let E := fresh "E" in
      destruct (matches_at s j n) eqn:E;
      [pose proof (matches_at_bound _ _ _ E)|]; clear E
  | H : context [first_match ?l ?s ?j ?i] |- _ =>
      let E := fresh "E" in
      destruct (first_match l s j i) as [[? ?]|] eqn:E;
      [pose proof (matches_at_bound _ _ _ (first_match_matches _ _ _ _ _ _ E))|];
      clear E
  end; cbn [negb] in *.

Lemma exec_cursor_bound (d : directive) (s : string) (locale : Locale)
  (r : parseResult) (j : nat) (r' : parseResult) (j' : nat) :
  exec d s locale r j = Value (r', j') ->
  (j <= String.length s)%nat -> (j' <= String.length s)%nat.
Proof.
  destruct d as [c|c|e]; cbn [exec]; intros H Hj.
  - unfold parseLiteral in H.
    destruct (String.length s <=? j)%nat eqn:El; cbn [orb] in H.
    + destruct (String.get j s); discriminate.
    + apply Nat.leb_gt in El.
      destruct (negb (byte_is s j c)); [destruct (String.get j s); discriminate|].
      injection H as _ <-. lia.
  - destruct (spec_cases c) as [Hin|Hun]; [|rewrite Hun in H; discriminate].
    unfold specifiers in Hin. cbn [In] in Hin.
    repeat (destruct Hin as [<-|Hin];
            [cbn [parseSpec] in H; repeat bound_step;
             first [discriminate H | injection H as _ <-; lia]|]).
    contradiction.
  - discriminate.
Qed.

Lemma walk_cursor_bound (s : string) (locale : Locale) (format : string) :
  forall r j r' j',
    walk format s locale r j = Value (r', j') ->
    (j <= String.length s)%nat -> (j' <= String.length s)%nat.
Proof.
  intros r j r' j'. rewrite walk_scan. revert r j.
  induction (scan format) as [|d ds IH]; intros r j H Hj.
  - injection H as _ <-. exact Hj.
  - cbn [run] in H.
    destruct (exec d s locale r j) as [[r1 j1]| |] eqn:E; try discriminate.
    cbn [bind fst snd] in H.
    apply (IH r1 j1 H). exact (exec_cursor_bound _ _ _ _ _ _ _ E Hj).
Qed.

(** * Further properties of the package *)

(** ** Strings *)

Lemma length_app (a b : string) :
  String.length (a ++ b) = (String.length a + String.length b)%nat.
Proof. induction a as [|c a IH]; cbn; [reflexivity|]. rewrite IH. reflexivity. Qed.

Lemma get_app_right (a b : string) :
  forall k, String.get (String.length a + k) (a ++ b) = String.get k b.
Proof. induction a as [|c a IH]; intros k; cbn; [reflexivity|apply IH]. Qed.



Lemma append_empty (a : string) : a ++ "" = a.
Proof. induction a as [|c a IH]; cbn; [reflexivity|]. rewrite IH. reflexivity. Qed.

Lemma append_assoc (a b c : string) : (a ++ b) ++ c = a ++ (b ++ c).
Proof. induction a as [|x a IH]; cbn; [reflexivity|]. rewrite IH. reflexivity. Qed.

Lemma get_within_input (s : string) :
  forall j, (j < String.length s)%nat -> exists x, String.get j s = Some x.
Proof.
  induction s as [|c s IH]; intros j Hj; cbn [String.length] in Hj; [lia|].
  destruct j as [|j]; [exists c; reflexivity|].
  cbn [String.get]. apply IH. lia.
Qed.



(** ** X1: formatting within the contract *)

(** X1.  With a locale of seven weekday names and twelve month names, and a
    time whose weekday is 0 to 6 and whose month is 1 to 12, both
    implementations of [StrftimeL] return a string for every format: no
    name table is indexed out of range. *)
Theorem X1_formatting_never_panics (format : string) (t : Time) (locale : option Locale) :
  locale_ok (locale_or_default locale) -> calendar_ok t ->
  (exists out, Posix.StrftimeL format t locale = Some out) /\
  (exists out, Gnu.StrftimeL format t locale = Some out).
Proof. intros Hloc Ht. apply StrftimeL_total; assumption. Qed.

Lemma X1_formatting_never_panics_witness :
  (exists out, Posix.StrftimeL "%A, %B %d" afternoon None = Some out) /\
  (exists out, Gnu.StrftimeL "%A, %B %d" afternoon None = Some out).
Proof.
  apply (X1_formatting_never_panics "%A, %B %d" afternoon None).
  - exact default_locale_ok.
  - unfold calendar_ok. cbn. lia.
Defined.

(** ** X2: the month tables *)

Lemma index_outside (names : list string) (i : Z) :
  i < 0 \/ Z.of_nat (List.length names) <= i -> index names i = None.
Proof.
  intros H. unfold index. destruct (Z.ltb_spec i 0) as [|Hi]; [reflexivity|].
  apply nth_error_None. lia.
Qed.

(** X2.  Where the month of the time has no name in the locale's tables,
    the first implementation of [StrftimeL] writes nothing for [%B] and
    [%b], its index being guarded, and the second panics. *)
Theorem X2_month_out_of_table (t : Time) (locale : Locale) :
  Month t - 1 < 0 \/ Z.of_nat (List.length (MonthsFull locale)) <= Month t - 1 ->
  Month t - 1 < 0 \/ Z.of_nat (List.length (MonthsAbbrev locale)) <= Month t - 1 ->
  Posix.StrftimeL "%B" t (Some locale) = Some "" /\
  Posix.StrftimeL "%b" t (Some locale) = Some "" /\
  Gnu.StrftimeL "%B" t (Some locale) = None /\
  Gnu.StrftimeL "%b" t (Some locale) = None.
Proof.
  intros HF HA.
  assert (GF : (0 <=? Month t - 1)
               && (Month t - 1 <? Z.of_nat (List.length (MonthsFull locale))) = false).
  { destruct HF; [rewrite (proj2 (Z.leb_gt _ _)) by lia; reflexivity|].
    rewrite (proj2 (Z.ltb_ge _ _)) by lia. apply andb_false_r. }
  assert (GA : (0 <=? Month t - 1)
               && (Month t - 1 <? Z.of_nat (List.length (MonthsAbbrev locale))) = false).
  { destruct HA; [rewrite (proj2 (Z.leb_gt _ _)) by lia; reflexivity|].
    rewrite (proj2 (Z.ltb_ge _ _)) by lia. apply andb_false_r. }
  unfold Posix.StrftimeL, Gnu.StrftimeL. cbn [locale_or_default].
  repeat split.
  - eval_runes. cbn -[index]. rewrite GF. reflexivity.
  - eval_runes. cbn -[index]. rewrite GA. reflexivity.
  - cbn -[index]. rewrite (index_outside _ _ HF). reflexivity.
  - cbn -[index]. rewrite (index_outside _ _ HA). reflexivity.
Qed.

Lemma X2_month_out_of_table_witness :
  Posix.StrftimeL "%B" afternoon (Some (mkLocale [] [] [] [] "AM" "PM")) = Some "" /\
  Posix.StrftimeL "%b" afternoon (Some (mkLocale [] [] [] [] "AM" "PM")) = Some "" /\
  Gnu.StrftimeL "%B" afternoon (Some (mkLocale [] [] [] [] "AM" "PM")) = None /\
  Gnu.StrftimeL "%b" afternoon (Some (mkLocale [] [] [] [] "AM" "PM")) = None.
Proof.
  apply (X2_month_out_of_table afternoon (mkLocale [] [] [] [] "AM" "PM"));
    right; cbn; lia.
Defined.

(** ** X3: a format without a percent sign, formatted *)

Lemma byte_of_val (c : byte) : byte_of (byte_val c) = c.
Proof. unfold byte_of, byte_val. rewrite Nat2Z.id. apply ascii_nat_embedding. Qed.

Lemma byte_val_range (c : byte) : 0 <= byte_val c < 256.
Proof. unfold byte_val. pose proof (nat_ascii_bounded c). lia. Qed.

Lemma percent_rune (c : byte) : Posix.is_percent (byte_val c) = Ascii.eqb c "%".
Proof.
  unfold Posix.is_percent. destruct (Ascii.eqb c "%") eqn:E.
  - apply Ascii.eqb_eq in E. subst c. reflexivity.
  - apply Z.eqb_neq. intros H. apply Ascii.eqb_neq in E. apply E.
    rewrite <- (byte_of_val c), H. reflexivity.
Qed.

Lemma encode_ascii (c : byte) :
  byte_val c < 128 -> utf8.EncodeRune (byte_val c) = String c "".
Proof.
  intros H. pose proof (byte_val_range c) as R. unfold utf8.EncodeRune.
  rewrite (proj2 (Z.leb_le 0 _)) by lia. rewrite (proj2 (Z.leb_le _ 127)) by lia.
  cbn [andb]. rewrite byte_of_val. reflexivity.
Qed.

Lemma Gnu_loop_literals (t : Time) (loc : Locale) :
  forall f result, no_percent f = true -> Gnu.loop f t loc result = Some (result ++ f).
Proof.
  induction f as [|c f IH]; intros result H.
  - cbn. rewrite append_empty. reflexivity.
  - cbn [no_percent] in H. apply andb_prop in H. destruct H as [Hc Hf].
    cbn [Gnu.loop]. unfold Gnu.is_percent. rewrite Hc.
    rewrite (IH _ Hf), append_assoc. reflexivity.
Qed.


(** ** X4: a format without a percent sign, parsed *)

Lemma get_at_length (a b : string) : String.get (String.length a) (a ++ b) = String.get 0 b.
Proof. rewrite <- (Nat.add_0_r (String.length a)). apply get_app_right. Qed.

Lemma app_snoc (a : string) (c : byte) (b : string) :
  a ++ String c b = (a ++ String c "") ++ b.
Proof. rewrite append_assoc. reflexivity. Qed.

Lemma length_snoc (a : string) (c : byte) :
  String.length (a ++ String c "") = S (String.length a).
Proof. rewrite length_app. cbn. lia. Qed.

Lemma byte_is_head (a : string) (x : byte) (b : string) (c : byte) :
  byte_is (a ++ String x b) (String.length a) c = Ascii.eqb x c.
Proof. unfold byte_is. rewrite get_at_length. reflexivity. Qed.

(** The loop of trailing blanks stops at the first byte that is no blank. *)
Lemma skip_blanks_app :
  forall rest pre,
    skip_blanks (pre ++ rest) (String.length pre) (String.length rest)
    = (String.length pre + leading_blanks rest)%nat.
Proof.
  induction rest as [|c rest IH]; intros pre; cbn [String.length skip_blanks leading_blanks].
  - lia.
  - rewrite !byte_is_head. fold (is_blank c). destruct (is_blank c); [|lia].
    rewrite (app_snoc pre c rest), <- (length_snoc pre c), IH, length_snoc. lia.
Qed.

Lemma leading_blanks_all (s : string) :
  leading_blanks s = String.length s <-> all_blank s = true.
Proof.
  induction s as [|c s IH]; cbn [leading_blanks String.length all_blank]; [tauto|].
  destruct (is_blank c); cbn [andb].
  - rewrite <- IH. split; intros H; lia.
  - split; intros H; discriminate.
Qed.

Lemma leading_blanks_le (s : string) : (leading_blanks s <= String.length s)%nat.
Proof.
  induction s as [|c s IH]; cbn [leading_blanks String.length]; [lia|].
  destruct (is_blank c); lia.
Qed.

(** The byte after the leading blanks, when there is one, is no blank. *)
Lemma leading_blanks_stop (s : string) :
  (leading_blanks s < String.length s)%nat ->
  exists c, String.get (leading_blanks s) s = Some c /\ is_blank c = false.
Proof.
  induction s as [|c s IH]; cbn [leading_blanks String.length]; [lia|].
  destruct (is_blank c) eqn:E; intros H.
  - cbn [String.get]. apply IH. lia.
  - exists c. split; [reflexivity|exact E].
Qed.

(** The walk over literals alone: the input goes on with them. *)
Lemma walk_literals (locale : Locale) (result : parseResult) :
  forall f pre rest result' j',
    no_percent f = true ->
    walk f (pre ++ rest) locale result (String.length pre) = Value (result', j') ->
    exists rest', rest = f ++ rest' /\ result' = result
                  /\ j' = (String.length pre + String.length f)%nat.
Proof.
  induction f as [|c f IH]; intros pre rest result' j' Hp H.
  - cbn in H. injection H as <- <-. exists rest. cbn. repeat split. lia.
  - cbn [no_percent] in Hp. apply andb_prop in Hp. destruct Hp as [Hc Hp].
    apply negb_true_iff in Hc. cbn [walk] in H. unfold is_percent in H. rewrite Hc in H.
    unfold parseLiteral in H. destruct rest as [|x rest].
    + unfold byte_is in H. rewrite get_at_length in H. cbn [String.get] in H.
      rewrite orb_true_r in H. discriminate.
    + rewrite byte_is_head in H. rewrite get_at_length in H. cbn [String.get] in H.
      rewrite length_app in H. cbn [String.length] in H.
      replace (String.length pre + S (String.length rest) <=? String.length pre)%nat
        with false in H by (symmetry; apply Nat.leb_gt; lia).
      cbn [orb] in H. destruct (Ascii.eqb x c) eqn:E; cbn [negb] in H; [|discriminate].
      apply Ascii.eqb_eq in E. subst x. cbn [bind fst snd] in H.
      rewrite (app_snoc pre c rest), <- (length_snoc pre c) in H.
      destruct (IH _ _ _ _ Hp H) as (rest' & -> & -> & ->).
      exists rest'. rewrite length_snoc. cbn. repeat split. lia.
Qed.

Lemma walk_literals_match (locale : Locale) (result : parseResult) :
  forall f pre rest,
    no_percent f = true ->
    walk f (pre ++ f ++ rest) locale result (String.length pre)
    = Value (result, (String.length pre + String.length f)%nat).
Proof.
  induction f as [|c f IH]; intros pre rest Hp.
  - cbn. rewrite Nat.add_0_r. reflexivity.
  - cbn [no_percent] in Hp. apply andb_prop in Hp. destruct Hp as [Hc Hp].
    apply negb_true_iff in Hc. cbn [walk String.append]. unfold is_percent. rewrite Hc.
    unfold parseLiteral. rewrite byte_is_head, Ascii.eqb_refl.
    rewrite length_app. cbn [String.length negb].
    replace (_ <=? _)%nat with false by (symmetry; apply Nat.leb_gt; lia).
    cbn [orb bind fst snd].
    rewrite (app_snoc pre c (f ++ rest)), <- (length_snoc pre c), (IH _ _ Hp), length_snoc.
    f_equal. f_equal. lia.
Qed.

Lemma finish_plain (s : string) (base : Time) (pre rest : string) :
  finish (pre ++ rest) base (initial base) (String.length pre)
  = if all_blank rest
    then Value (Date (Year base) (Month base) (Day base) (Hour base) (Minute base)
                  (Second base) 0 (Location base))
    else Error (ErrTrailing (String.length pre + leading_blanks rest)).
Proof.
  unfold finish. rewrite length_app.
  replace (String.length pre + String.length rest - String.length pre)%nat
    with (String.length rest) by lia.
  rewrite skip_blanks_app. cbn [initial hour12 ampmSet andb].
  destruct (all_blank rest) eqn:E.
  - apply leading_blanks_all in E. rewrite E, Nat.eqb_refl. reflexivity.
  - destruct (Nat.eqb_spec (String.length pre + leading_blanks rest)
                (String.length pre + String.length rest)) as [Heq|]; [|reflexivity].
    assert (Hall : all_blank rest = true) by (apply leading_blanks_all; lia).
    congruence.
Qed.

(** X4.  Parsing with a format that holds no percent sign returns a time
    exactly when the input is the format followed by spaces and tabs only,
    and the time is then the current moment: all its fields are those of the
    clock. *)
Theorem X4_parse_without_percent (f s : string) (locale : option Locale) (base : Time)
  (d : DateTime) :
  no_percent f = true ->
  ParseL f s locale base = Value d <->
  (exists blanks, s = f ++ blanks /\ all_blank blanks = true) /\
  d = Date (Year base) (Month base) (Day base) (Hour base) (Minute base) (Second base)
        0 (Location base).
Proof.
  intros Hp. unfold ParseL. split.
  - intros H.
    destruct (walk f s (locale_or_default locale) (initial base) 0) as [[r j]| |] eqn:Hw;
      try discriminate.
    destruct (walk_literals _ _ f "" s r j Hp Hw) as (rest & -> & -> & ->).
    cbn [bind fst snd String.length Nat.add] in H.
    pose proof (finish_plain (f ++ rest) base f rest) as Hf. rewrite Hf in H.
    destruct (all_blank rest) eqn:E; [|discriminate].
    injection H as <-. split; [exists rest; auto|reflexivity].
  - intros [(blanks & -> & Hb) ->].
    pose proof (walk_literals_match (locale_or_default locale) (initial base) f "" blanks Hp)
      as Hw.
    cbn [String.append String.length Nat.add] in Hw. rewrite Hw. cbn [bind fst snd].
    pose proof (finish_plain (f ++ blanks) base f blanks) as Hf. rewrite Hf, Hb.
    reflexivity.
Qed.

Lemma X4_parse_without_percent_witness :
  ParseL "at noon" "at noon  " None noon = Value (Date 2025 7 4 12 34 56 0 UTC) <->
  (exists blanks, "at noon  " = "at noon" ++ blanks /\ all_blank blanks = true) /\
  Date 2025 7 4 12 34 56 0 UTC
  = Date (Year noon) (Month noon) (Day noon) (Hour noon) (Minute noon) (Second noon)
      0 (Location noon).
Proof.
  apply (X4_parse_without_percent "at noon" "at noon  " None noon). reflexivity.
Defined.

(** ** Fail-fast: the first directive that fails decides *)

Lemma run_error (s : string) (locale : Locale) :
  forall ds r j e,
    run ds s locale r j = Error e ->
    exists ds1 d ds2 r' j',
      ds = (ds1 ++ d :: ds2)%list /\ run ds1 s locale r j = Value (r', j') /\
      exec d s locale r' j' = Error e.
Proof.
  induction ds as [|d ds IH]; intros r j e H; [discriminate|].
  cbn [run] in H. destruct (exec d s locale r j) as [[r1 j1]| |] eqn:E; try discriminate.
  - cbn [bind fst snd] in H. destruct (IH _ _ _ H) as (ds1 & d' & ds2 & r' & j' & -> & Hr & He).
    exists (d :: ds1), d', ds2, r', j'. repeat split; auto.
    cbn [run]. rewrite E. exact Hr.
  - injection H as <-. exists [], d, ds, r, j. auto.
Qed.

Lemma run_panic (s : string) (locale : Locale) :
  forall ds r j,
    run ds s locale r j = Panic ->
    exists ds1 d ds2 r' j',
      ds = (ds1 ++ d :: ds2)%list /\ run ds1 s locale r j = Value (r', j') /\
      exec d s locale r' j' = Panic.
Proof.
  induction ds as [|d ds IH]; intros r j H; [discriminate|].
  cbn [run] in H. destruct (exec d s locale r j) as [[r1 j1]| |] eqn:E; try discriminate.
  - cbn [bind fst snd] in H. destruct (IH _ _ H) as (ds1 & d' & ds2 & r' & j' & -> & Hr & He).
    exists (d :: ds1), d', ds2, r', j'. repeat split; auto.
    cbn [run]. rewrite E. exact Hr.
  - exists [], d, ds, r, j. auto.
Qed.

Ltac outcome_step :=
  match goal with
  | H : context [parseFixedInt ?s ?j ?n] |- _ =>
      destruct (parseFixedInt s j n) as [[? ?] ?]
  | H : context [parseIntVariable ?s ?j ?a ?b] |- _ =>
      destruct (parseIntVariable s j a b) as [[? ?] ?]
  | H : context [byte_is ?s ?j ?c] |- _ => destruct (byte_is s j c)
  | H : context [matches_at ?s ?j ?n] |- _ => destruct (matches_at s j n)
  | H : context [first_match ?l ?s ?j ?i] |- _ =>
      destruct (first_match l s j i) as [[? ?]|]
  end; cbn [negb] in *.

(** A conversion specifier never panics, and the errors it returns are
    neither those of the numeric helpers nor those built after the loop. *)
Lemma parseSpec_outcomes (c : byte) (s : string) (locale : Locale) (r : parseResult) (j : nat) :
  parseSpec c s locale r j <> Panic /\
  forall e, parseSpec c s locale r j = Error e ->
            numeric_error e = false /\ final_error e = false.
Proof.
  destruct (spec_cases c) as [Hin|Hun].
  - unfold specifiers in Hin. cbn [In] in Hin.
    repeat (destruct Hin as [<-|Hin];
            [split; [intros H|intros e H]; cbn [parseSpec] in H; repeat outcome_step;
             first [discriminate H | injection H as <-; split; reflexivity]|]).
    contradiction.
  - rewrite Hun. split; [discriminate|]. intros e H. injection H as <-. split; reflexivity.
Qed.

Lemma scan_incomplete :
  forall format e,
    In (Incomplete e) (scan format) -> e = ErrIncompleteAtEnd \/ e = ErrIncompleteAfterPosix.
Proof.
  induction format as [format IH] using string_length_ind.
  intros e. destruct format as [|c f1]; [intros []|].
  cbn [scan]. destruct (is_percent c).
  - destruct f1 as [|c1 f2].
    { intros [H|[]]. injection H as <-. auto. }
    destruct (is_ext c1).
    + destruct f2 as [|c2 f3].
      { intros [H|[]]. injection H as <-. auto. }
      destruct (is_percent c2).
      * destruct f3 as [|c3 f4].
        { intros [H|[]]. injection H as <-. auto. }
        intros [H|H]; [discriminate|]. apply (IH f4); [shorter|exact H].
      * intros [H|H]; [discriminate|]. apply (IH f3); [shorter|exact H].
    + intros [H|H]; [discriminate|]. apply (IH f2); [shorter|exact H].
  - intros [H|H]; [discriminate|]. apply (IH f1); [shorter|exact H].
Qed.

(** The errors of the loop of [ParseL]. *)
Lemma walk_error_kind (format s : string) (locale : Locale) (r : parseResult) (j : nat)
  (e : error) :
  walk format s locale r j = Error e -> numeric_error e = false /\ final_error e = false.
Proof.
  rewrite walk_scan. intros H.
  destruct (run_error _ _ _ _ _ _ H) as (ds1 & d & ds2 & r' & j' & Hds & _ & He).
  destruct d as [c|c|e0]; cbn [exec] in He.
  - unfold parseLiteral in He. destruct (_ || _); [|discriminate].
    destruct (String.get j' s); [|discriminate]. injection He as <-. split; reflexivity.
  - exact (proj2 (parseSpec_outcomes c s locale r' j') e He).
  - injection He as <-.
    assert (Hin : In (Incomplete e0) (scan format)).
    { rewrite Hds. apply in_or_app. right. left. reflexivity. }
    destruct (scan_incomplete _ _ Hin) as [-> | ->]; split; reflexivity.
Qed.

(** ** X5: what the caller never sees of a numeric field *)

(** X5.  [ParseL] never returns one of the errors that [parseFixedInt] and
    [parseIntVariable] build ("expected digits", "failed to parse integer"):
    whatever the format and the input, a numeric field that cannot be read
    is not reported as such. *)
Theorem X5_numeric_errors_never_returned (format s : string) (locale : option Locale)
  (base : Time) (e : error) :
  ParseL format s locale base = Error e -> numeric_error e = false.
Proof.
  unfold ParseL.
  destruct (walk format s (locale_or_default locale) (initial base) 0)
    as [[r j]| |] eqn:Hw; cbn [bind fst snd]; try discriminate.
  - unfold finish. intros H.
    destruct (negb _); [injection H as <-; reflexivity|].
    destruct (_ && _); [injection H as <-; reflexivity|].
    destruct (hour12 r); [|discriminate].
    destruct (_ || _); [injection H as <-; reflexivity|discriminate].
  - intros H. injection H as <-. exact (proj1 (walk_error_kind _ _ _ _ _ _ Hw)).
Qed.

Lemma X5_numeric_errors_never_returned_witness :
  numeric_error (ErrLiteralMismatch 0 "-" "2") = false.
Proof.
  apply (X5_numeric_errors_never_returned "%Y-%m-%d" "20a5-02-25" None noon).
  reflexivity.
Defined.

(** ** X6: when ParseL panics *)

Lemma exec_panic (d : directive) (s : string) (locale : Locale) (r : parseResult) (j : nat) :
  exec d s locale r j = Panic -> exists c, d = Literal c /\ String.get j s = None.
Proof.
  destruct d as [c|c|e]; cbn [exec]; intros H.
  - exists c. split; [reflexivity|]. unfold parseLiteral in H.
    destruct (_ || _); [|discriminate]. destruct (String.get j s); [discriminate|reflexivity].
  - destruct (proj1 (parseSpec_outcomes c s locale r j) H).
  - discriminate.
Qed.

(** X6.  [ParseL] panics exactly when, the directives before it having come
    through, a literal of the format is met with the input exhausted: the
    cursor is then the length of the input.  A format without a literal
    never makes it panic. *)
Theorem X6_panic_only_at_literal (format s : string) (locale : option Locale) (base : Time) :
  (ParseL format s locale base = Panic <->
   exists ds1 c ds2 r,
     scan format = (ds1 ++ Literal c :: ds2)%list /\
     run ds1 s (locale_or_default locale) (initial base) 0 = Value (r, String.length s)) /\
  (existsb is_literal (scan format) = false -> ParseL format s locale base <> Panic).
Proof.
  assert (Hdir : ParseL format s locale base = Panic ->
                 exists ds1 c ds2 r,
                   scan format = (ds1 ++ Literal c :: ds2)%list /\
                   run ds1 s (locale_or_default locale) (initial base) 0
                   = Value (r, String.length s)).
  { unfold ParseL. rewrite walk_scan.
    destruct (run (scan format) s (locale_or_default locale) (initial base) 0)
      as [[r j]| |] eqn:Hr; cbn [bind fst snd]; try discriminate.
    - unfold finish. intros H. exfalso.
      destruct (negb _); [discriminate|]. destruct (_ && _); [discriminate|].
      destruct (hour12 r); [|discriminate]. destruct (_ || _); discriminate.
    - intros _. destruct (run_panic _ _ _ _ _ Hr) as (ds1 & d & ds2 & r' & j' & Hds & Hr1 & He).
      destruct (exec_panic _ _ _ _ _ He) as (c & -> & Hget).
      exists ds1, c, ds2, r'. split; [exact Hds|].
      assert (Hle : (j' <= String.length s)%nat).
      { revert Hr1. clear. revert r' j'.
        assert (G : forall ds r0 j0 r' j', (j0 <= String.length s)%nat ->
                    run ds s (locale_or_default locale) r0 j0 = Value (r', j') ->
                    (j' <= String.length s)%nat).
        { induction ds as [|d ds IH]; intros r0 j0 r' j' Hj H.
          - injection H as _ <-. exact Hj.
          - cbn [run] in H.
            destruct (exec d s (locale_or_default locale) r0 j0) as [[r1 j1]| |] eqn:E;
              try discriminate.
            cbn [bind fst snd] in H.
            apply (IH r1 j1 r' j'); [|exact H].
            exact (exec_cursor_bound _ _ _ _ _ _ _ E Hj). }
        intros r' j'. apply G. lia. }
      assert (Hge : (String.length s <= j')%nat).
      { destruct (Nat.lt_ge_cases j' (String.length s)) as [Hlt|]; [|assumption].
        destruct (get_within_input s j' Hlt) as [x Hx]. congruence. }
      replace (String.length s) with j' by lia. exact Hr1. }
  split; [split; [exact Hdir|]|].
  - intros (ds1 & c & ds2 & r & Hds & Hr). unfold ParseL.
    rewrite walk_scan, Hds, run_app, Hr. cbn [bind fst snd run exec].
    unfold parseLiteral. rewrite (get_beyond s (String.length s)) by lia.
    rewrite Nat.leb_refl. reflexivity.
  - intros Hno H. destruct (Hdir H) as (ds1 & c & ds2 & r & Hds & _).
    rewrite Hds, existsb_app in Hno. cbn in Hno. rewrite orb_true_r in Hno. discriminate.
Qed.

(** ** X7: a parse that succeeds has met supported specifiers only *)

Lemma run_value_supported (s : string) (locale : Locale) :
  forall ds r j st,
    run ds s locale r j = Value st ->
    forall c, In (Spec c) ds -> In c specifiers.
Proof.
  induction ds as [|d ds IH]; intros r j st H c Hc; [destruct Hc|].
  cbn [run] in H. destruct (exec d s locale r j) as [[r1 j1]| |] eqn:E; try discriminate.
  cbn [bind fst snd] in H. destruct Hc as [->|Hc]; [|exact (IH _ _ _ H c Hc)].
  cbn [exec] in E. destruct (spec_cases c) as [Hin|Hun]; [exact Hin|].
  rewrite Hun in E. discriminate.
Qed.

(** X7.  When [ParseL] returns a time, no specifier of the format is cut
    short by its end and every conversion specifier of the format is one of
    [Y y m d e H I M S p D F B b h A a %]: one unsupported or incomplete
    specifier anywhere in the format makes every parse fail. *)
Theorem X7_success_needs_supported_format (format s : string) (locale : option Locale)
  (base : Time) (d : DateTime) :
  ParseL format s locale base = Value d ->
  well_scanned (scan format) = true /\
  forall c, has_spec format c = true -> In c specifiers.
Proof.
  unfold ParseL. rewrite walk_scan.
  destruct (run (scan format) s (locale_or_default locale) (initial base) 0)
    as [st| |] eqn:Hr; cbn [bind]; try discriminate.
  intros _. split.
  - exact (run_value_well_scanned _ _ _ _ _ _ Hr).
  - intros c Hc. unfold has_spec in Hc. apply existsb_exists in Hc.
    destruct Hc as ([x|x|e] & Hin & Hx); try discriminate.
    apply Ascii.eqb_eq in Hx. subst x.
    exact (run_value_supported _ _ _ _ _ _ Hr c Hin).
Qed.

Lemma X7_success_needs_supported_format_witness :
  well_scanned (scan "%Y-%m-%d") = true /\
  forall c, has_spec "%Y-%m-%d" c = true -> In c specifiers.
Proof.
  apply (X7_success_needs_supported_format "%Y-%m-%d" "2025-02-25" None noon
           (Date 2025 2 25 12 34 56 0 UTC)).
  reflexivity.
Defined.

(** ** X8: the input after the last directive *)

Lemma split_at (s : string) :
  forall j, (j <= String.length s)%nat ->
  exists pre rest, s = pre ++ rest /\ String.length pre = j.
Proof.
  induction s as [|c s IH]; intros j Hj; cbn [String.length] in Hj.
  - exists "", "". split; [reflexivity|cbn; lia].
  - destruct j as [|j].
    + exists "", (String c s). split; reflexivity.
    + destruct (IH j ltac:(lia)) as (pre & rest & -> & <-).
      exists (String c pre), rest. split; reflexivity.
Qed.

Lemma finish_after (pre rest : string) (base : Time) (r : parseResult) :
  (all_blank rest = false ->
   finish (pre ++ rest) base r (String.length pre)
   = Error (ErrTrailing (String.length pre + leading_blanks rest))) /\
  (all_blank rest = true ->
   forall k, finish (pre ++ rest) base r (String.length pre) <> Error (ErrTrailing k)).
Proof.
  unfold finish. rewrite length_app.
  replace (String.length pre + String.length rest - String.length pre)%nat
    with (String.length rest) by lia.
  rewrite skip_blanks_app. split; intros E.
  - destruct (Nat.eqb_spec (String.length pre + leading_blanks rest)
                (String.length pre + String.length rest)) as [Heq|]; [|reflexivity].
    assert (Hall : all_blank rest = true) by (apply leading_blanks_all; lia).
    congruence.
  - apply leading_blanks_all in E. rewrite E, Nat.eqb_refl. cbn [negb]. intros k.
    destruct (_ && _); [discriminate|]. destruct (hour12 r); [|discriminate].
    destruct (_ || _); discriminate.
Qed.

(** X8.  After the last directive [ParseL] accepts spaces and tabs only.
    When it returns a time, the input is what the directives consumed
    followed by spaces and tabs; when it returns the trailing-characters
    error, the position it reports is that of the first byte after the
    consumed input that is neither a space nor a tab. *)
Theorem X8_trailing_input (format s : string) (locale : option Locale) (base : Time) :
  (forall d, ParseL format s locale base = Value d ->
     exists consumed blanks r,
       s = consumed ++ blanks /\ all_blank blanks = true /\
       walk format s (locale_or_default locale) (initial base) 0
       = Value (r, String.length consumed)) /\
  (forall k, ParseL format s locale base = Error (ErrTrailing k) ->
     exists consumed rest r c,
       s = consumed ++ rest /\
       walk format s (locale_or_default locale) (initial base) 0
       = Value (r, String.length consumed) /\
       k = (String.length consumed + leading_blanks rest)%nat /\
       String.get k s = Some c /\ is_blank c = false).
Proof.
  unfold ParseL.
  destruct (walk format s (locale_or_default locale) (initial base) 0)
    as [[r j]| |] eqn:Hw; cbn [bind fst snd].
  - assert (Hj : (j <= String.length s)%nat)
      by (apply (walk_cursor_bound _ _ _ _ _ _ _ Hw); lia).
    destruct (split_at s j Hj) as (pre & rest & Hs & Hlen). subst s j.
    destruct (finish_after pre rest base r) as [Hbad Hgood].
    destruct (all_blank rest) eqn:E; split.
    + intros d _. exists pre, rest, r. auto.
    + intros k H. destruct (Hgood eq_refl k H).
    + intros d H. rewrite (Hbad eq_refl) in H. discriminate.
    + intros k H. rewrite (Hbad eq_refl) in H. injection H as <-.
      assert (Hlt : (leading_blanks rest < String.length rest)%nat).
      { pose proof (leading_blanks_le rest) as Hle.
        destruct (Nat.eq_dec (leading_blanks rest) (String.length rest)) as [Heq|]; [|lia].
        apply leading_blanks_all in Heq. congruence. }
      destruct (leading_blanks_stop rest Hlt) as (c & Hc & Hb).
      exists pre, rest, r, c. repeat split; auto.
      rewrite get_app_right. exact Hc.
  - split; [discriminate|]. intros k H. injection H as ->.
    destruct (walk_error_kind _ _ _ _ _ _ Hw) as [_ Hf]. discriminate.
  - split; discriminate.
Qed.

(** ** X9: parseFixedInt *)

Lemma substring_length (s : string) :
  forall pos n, (pos + n <= String.length s)%nat -> String.length (substring pos n s) = n.
Proof.
  induction s as [|c s IH]; intros pos n H; cbn [String.length] in H.
  - assert (pos = 0 /\ n = 0)%nat as [-> ->] by lia. reflexivity.
  - destruct pos as [|pos].
    + destruct n as [|n]; [reflexivity|]. cbn [substring String.length].
      rewrite (IH 0%nat n) by lia. reflexivity.
    + cbn [substring]. apply IH. lia.
Qed.

Lemma fast_digits_bound :
  forall s acc r,
    strconv.fast_digits s acc = Some r -> 0 <= acc ->
    acc * 10 ^ Z.of_nat (String.length s) <= r
    < (acc + 1) * 10 ^ Z.of_nat (String.length s).
Proof.
  induction s as [|c s IH]; intros acc r H Hacc.
  - cbn in H. injection H as <-. cbn. lia.
  - cbn [strconv.fast_digits] in H. cbv zeta in H.
    pose proof (Z.mod_pos_bound (byte_val c - 48) 256 ltac:(lia)) as Hm.
    destruct (9 <? (byte_val c - 48) mod 256) eqn:E; [discriminate|].
    apply Z.ltb_ge in E. apply IH in H; [|lia].
    cbn [String.length]. rewrite Nat2Z.inj_succ, Z.pow_succ_r by lia.
    assert (Hp : 0 < 10 ^ Z.of_nat (String.length s)) by (apply Z.pow_pos_nonneg; lia).
    nia.
Qed.

(** A number that [strconv.Atoi] reads from [n] characters, [n] below 19. *)
Lemma Atoi_bound (x : string) (v : Z) :
  (String.length x < 19)%nat -> strconv.Atoi x = (v, None) ->
  (0 < String.length x)%nat /\
  - 10 ^ (Z.of_nat (String.length x) - 1) < v < 10 ^ Z.of_nat (String.length x).
Proof.
  intros Hl H. unfold strconv.Atoi in H. cbv zeta in H.
  destruct x as [|c rest]; [discriminate|].
  split; [cbn; lia|].
  replace ((0 <? String.length (String c rest))%nat
           && (String.length (String c rest) <? 19)%nat) with true in H.
  2:{ symmetry. apply andb_true_intro. split; apply Nat.ltb_lt; cbn in *; lia. }
  cbn [String.length]. rewrite Nat2Z.inj_succ.
  replace (Z.succ (Z.of_nat (String.length rest)) - 1) with (Z.of_nat (String.length rest))
    by lia.
  rewrite Z.pow_succ_r by lia.
  assert (Hp : 0 < 10 ^ Z.of_nat (String.length rest)) by (apply Z.pow_pos_nonneg; lia).
  destruct (Ascii.eqb c "-" || Ascii.eqb c "+") eqn:Es.
  - destruct (andb true (String.length rest <? 1)%nat); [discriminate|].
    destruct (strconv.fast_digits rest 0) as [m|] eqn:Ef; [|discriminate].
    apply fast_digits_bound in Ef; [|lia].
    destruct (Ascii.eqb c "-"); injection H as <-; lia.
  - cbn [andb] in H.
    destruct (strconv.fast_digits (String c rest) 0) as [m|] eqn:Ef; [|discriminate].
    apply fast_digits_bound in Ef; [|lia].
    cbn [String.length] in Ef. rewrite Nat2Z.inj_succ, Z.pow_succ_r in Ef by lia.
    apply orb_false_elim in Es. destruct Es as [Em _]. rewrite Em in H.
    injection H as <-. lia.
Qed.

(** X9.  [parseFixedInt] either reads exactly [length] characters that lie
    within the input, and the cursor advances by [length], or it fails,
    gives 0 and leaves the cursor.  A field of fewer than 19 characters
    that is read is a number of at most [length] digits, or of a sign and
    at most [length - 1] digits: two characters give -9 to 99, four give
    -999 to 9999.  A field of no character is never read. *)
Theorem X9_parseFixedInt_contract (s : string) (pos length : nat) (v : Z) (pos' : nat)
  (e : option error) :
  parseFixedInt s pos length = (v, pos', e) ->
  match e with
  | None =>
      pos' = (pos + length)%nat /\ (pos + length <= String.length s)%nat /\
      (0 < length)%nat /\
      ((length < 19)%nat -> - 10 ^ (Z.of_nat length - 1) < v < 10 ^ Z.of_nat length)
  | Some _ => v = 0 /\ pos' = pos
  end.
Proof.
  unfold parseFixedInt, slice.
  replace (pos + length - pos)%nat with length by lia.
  destruct (String.length s <? pos + length)%nat eqn:El.
  - intros H. injection H as <- <- <-. auto.
  - apply Nat.ltb_ge in El.
    destruct (strconv.Atoi _) as [x [err|]] eqn:Ea; intros H; injection H as <- <- <-.
    + auto.
    + assert (Hlen : String.length (substring pos length s) = length).
      { apply substring_length. lia. }
      split; [reflexivity|]. split; [exact El|].
      destruct (Nat.lt_ge_cases length 19) as [Hlt|Hge].
      * destruct (Atoi_bound _ _ ltac:(rewrite Hlen; exact Hlt) Ea) as [Hpos Hb].
        rewrite Hlen in Hpos, Hb. split; [exact Hpos|]. intros _. exact Hb.
      * split; lia.
Qed.

Lemma X9_parseFixedInt_contract_witness :
  5%nat = (3 + 2)%nat /\ (3 + 2 <= String.length "12:-7")%nat /\ (0 < 2)%nat /\
  ((2 < 19)%nat -> - 10 ^ (Z.of_nat 2 - 1) < -7 < 10 ^ Z.of_nat 2).
Proof.
  apply (X9_parseFixedInt_contract "12:-7" 3 2 (-7) 5 None). reflexivity.
Defined.

(** ** X10: parseIntVariable *)




(** ** X11: the first name of the table wins *)

Lemma first_match_spec (s : string) (j : nat) :
  forall names i,
    match first_match names s j i with
    | Some (k, name) =>
        exists before after,
          names = (before ++ name :: after)%list /\
          k = i + Z.of_nat (List.length before) /\
          matches_at s j name = true /\
          forallb (fun n => negb (matches_at s j n)) before = true
    | None => forallb (fun n => negb (matches_at s j n)) names = true
    end.
Proof.
  induction names as [|n names IH]; intros i; cbn [first_match]; [reflexivity|].
  destruct (matches_at s j n) eqn:E.
  - exists [], names. cbn. repeat split; auto. lia.
  - specialize (IH (i + 1)). destruct (first_match names s j (i + 1)) as [[k name]|].
    + destruct IH as (before & after & -> & -> & Hm & Hb).
      exists (n :: before), after. cbn [app List.length forallb]. rewrite E, Hb.
      repeat split; auto. lia.
    + cbn [forallb]. rewrite E, IH. reflexivity.
Qed.

(** X11.  The month that [%B] sets is the position of the first name of
    the locale's table that is found at the cursor, whether or not a later,
    longer name is found there too; the cursor advances by the length of
    that name; and [%B] fails exactly when no name of the table is found at
    the cursor. *)
Theorem X11_first_month_name_wins (s : string) (locale : Locale) (result : parseResult)
  (j : nat) :
  match parseSpec "B" s locale result j with
  | Value (result', j') =>
      exists before name after,
        MonthsFull locale = (before ++ name :: after)%list /\
        matches_at s j name = true /\
        forallb (fun n => negb (matches_at s j n)) before = true /\
        result' = set_month result (Z.of_nat (List.length before) + 1) /\
        j' = (j + String.length name)%nat
  | Error e =>
      e = ErrFullMonth j /\
      forallb (fun n => negb (matches_at s j n)) (MonthsFull locale) = true
  | Panic => False
  end.
Proof.
  cbn [parseSpec]. pose proof (first_match_spec s j (MonthsFull locale) 0) as H.
  destruct (first_match (MonthsFull locale) s j 0) as [[k name]|].
  - destruct H as (before & after & Hn & -> & Hm & Hb).
    exists before, name, after. repeat split; auto.
  - split; [reflexivity|exact H].
Qed.

(** ** X12: the 12-hour clock, formatted and parsed *)


Lemma finish_at_end_plain (s : string) (base : Time) (r : parseResult) :
  hour12 r = false ->
  finish s base r (String.length s)
  = Value (Date (year r) (month r) (day r) (hour r) (minute r) (second r)
             0 (Location base)).
Proof.
  intros H12. unfold finish.
  rewrite Nat.sub_diag. cbn [skip_blanks]. rewrite Nat.eqb_refl, H12. reflexivity.
Qed.






(** ** X13: the year without century, formatted and parsed *)

Lemma pivot_window (v : Z) :
  0 <= v <= 99 -> 1969 <= pivot v <= 2068 /\ Z.rem (pivot v) 100 = v.
Proof.
  intros Hv.
  assert (G : ((1969 <=? pivot v) && (pivot v <=? 2068) && (Z.rem (pivot v) 100 =? v)) = true).
  { apply (below_forallb
             (fun v => (1969 <=? pivot v) && (pivot v <=? 2068) && (Z.rem (pivot v) 100 =? v))
             100); [vm_compute; reflexivity|lia]. }
  apply andb_prop in G. destruct G as [G Hr]. apply andb_prop in G. destruct G as [Hlo Hhi].
  apply Z.leb_le in Hlo. apply Z.leb_le in Hhi. apply Z.eqb_eq in Hr. auto.
Qed.

Lemma pivot_in_window (y : Z) : 1969 <= y <= 2068 -> pivot (Z.rem y 100) = y.
Proof.
  intros Hy.
  assert (G : ((y <? 1969) || (pivot (Z.rem y 100) =? y)) = true).
  { apply (below_forallb (fun y => (y <? 1969) || (pivot (Z.rem y 100) =? y)) 2069);
      [vm_compute; reflexivity|lia]. }
  apply orb_prop in G. destruct G as [G|G]; [apply Z.ltb_lt in G; lia|].
  apply Z.eqb_eq in G. exact G.
Qed.

(** X13.  For a time of a year that is not negative, both implementations
    of [StrftimeL] make the same two digits of [%y], and [ParseL] reads from
    them the year from 1969 to 2068 that has these two digits: the year of
    the time itself when it lies from 1969 to 2068, and another year
    otherwise. *)
Theorem X13_short_year_round_trip (t : Time) (locale : option Locale) (base : Time) :
  0 <= Year t ->
  exists out y,
    Posix.StrftimeL "%y" t locale = Some out /\
    Gnu.StrftimeL "%y" t locale = Some out /\
    ParseL "%y" out locale base
    = Value (Date y (Month base) (Day base) (Hour base) (Minute base) (Second base)
               0 (Location base)) /\
    1969 <= y <= 2068 /\ Z.rem y 100 = Z.rem (Year t) 100 /\
    (1969 <= Year t <= 2068 -> y = Year t).
Proof.
  intros Hy.
  assert (Hv : 0 <= Z.rem (Year t) 100 <= 99).
  { pose proof (Z.rem_bound_pos (Year t) 100 Hy ltac:(lia)). lia. }
  destruct (two_digit_field _ (two_digits_fixed_width (Z.rem (Year t) 100) Hv))
    as (a & b & PI & GI & AI).
  destruct (pivot_window _ Hv) as [Hw Hr].
  exists (String a (String b "")), (pivot (Z.rem (Year t) 100)).
  split; [|split; [|split; [|split; [|split]]]].
  - unfold Posix.StrftimeL. eval_runes. cbn -[fmt.Sprintf_0d String.append Z.rem].
    rewrite PI. reflexivity.
  - unfold Gnu.StrftimeL. cbn -[Gnu.formatInt String.append Z.rem]. rewrite GI. reflexivity.
  - unfold ParseL. cbn [walk is_percent is_ext Ascii.eqb Bool.eqb orb parseSpec].
    unfold parseFixedInt. cbn -[strconv.Atoi finish pivot Z.rem]. rewrite AI.
    cbn -[finish pivot Z.rem].
    change 2%nat with (String.length (String a (String b ""))).
    rewrite finish_at_end_plain by reflexivity. reflexivity.
  - exact Hw.
  - exact Hr.
  - apply pivot_in_window.
Qed.

Lemma X13_short_year_round_trip_witness :
  exists out y,
    Posix.StrftimeL "%y" afternoon None = Some out /\
    Gnu.StrftimeL "%y" afternoon None = Some out /\
    ParseL "%y" out None midnight = Value (Date y 1 1 0 0 0 0 UTC) /\
    1969 <= y <= 2068 /\ Z.rem y 100 = Z.rem 2025 100 /\
    (1969 <= 2025 <= 2068 -> y = 2025).
Proof. apply (X13_short_year_round_trip afternoon None midnight). cbn. lia. Defined.

(** ** X14: the space-padded day, formatted and parsed *)




(** ** X15: a month name, formatted and parsed *)





(** ** X16: the hour of a 12-hour parse *)




(** ** X17: the cursor of ParseL *)

(** X17.  The cursor of [ParseL] never passes the end of the input: from a
    cursor within the input, every walk over a format that comes through
    ends within the input.  The slice expressions [s[j:]] and
    [s[j:j+len(name)]] of the name and marker specifiers are therefore never
    evaluated out of range. *)
Theorem X17_cursor_within_input (format s : string) (locale : Locale)
  (r : parseResult) (j : nat) (r' : parseResult) (j' : nat) :
  (j <= String.length s)%nat ->
  walk format s locale r j = Value (r', j') ->
  (j' <= String.length s)%nat.
Proof. intros Hj H. exact (walk_cursor_bound s locale format r j r' j' H Hj). Qed.

Lemma X17_cursor_within_input_witness : (10 <= String.length "2025-02-25")%nat.
Proof.
  apply (X17_cursor_within_input "%Y-%m-%d" "2025-02-25" DefaultLocale (initial noon) 0
           (set_day (set_month (set_year (initial noon) 2025) 2) 25) 10).
  - cbn. lia.
  - reflexivity.
Defined.

(** ** X18: the POSIX prefix in the parser *)

Lemma scan_spec_plain (c : byte) (rest : string) :
  is_ext c = false -> scan (String "%" (String c rest)) = Spec c :: scan rest.
Proof. intros H. cbn [scan is_percent Ascii.eqb Bool.eqb]. rewrite H. reflexivity. Qed.

Lemma scan_spec_ext (x c : byte) (rest : string) :
  is_ext x = true -> is_percent c = false ->
  scan (String "%" (String x (String c rest))) = Spec c :: scan rest.
Proof.
  intros Hx Hc. cbn [scan is_percent Ascii.eqb Bool.eqb]. rewrite Hx.
  fold (is_percent c). rewrite Hc. reflexivity.
Qed.

Lemma scan_spec_ext_percent (x c : byte) (rest : string) :
  is_ext x = true ->
  scan (String "%" (String x (String "%" (String c rest)))) = Spec c :: scan rest.
Proof. intros Hx. cbn [scan is_percent Ascii.eqb Bool.eqb]. rewrite Hx. reflexivity. Qed.

(** X18.  In a format of [ParseL], after directives that are complete, a
    conversion specifier [c] other than [E] and [O] written with the prefix
    [E] or [O], as [%Ec], or as [%E%c], parses every input as [%c] does:
    the result, the error or the panic is the same. *)
Theorem X18_parser_prefix_equivalence (f1 rest s : string) (x c : byte)
  (locale : option Locale) (base : Time) :
  well_scanned (scan f1) = true ->
  is_ext x = true -> is_ext c = false ->
  ParseL (f1 ++ String "%" (String x (String "%" (String c rest)))) s locale base
  = ParseL (f1 ++ String "%" (String c rest)) s locale base /\
  (is_percent c = false ->
   ParseL (f1 ++ String "%" (String x (String c rest))) s locale base
   = ParseL (f1 ++ String "%" (String c rest)) s locale base).
Proof.
  intros Hf Hx Hc. unfold ParseL. rewrite !walk_scan, !scan_app by exact Hf.
  rewrite scan_spec_ext_percent by exact Hx. rewrite scan_spec_plain by exact Hc.
  split; [reflexivity|]. intros Hp.
  rewrite scan_spec_ext by assumption. reflexivity.
Qed.

Lemma X18_parser_prefix_equivalence_witness :
  ParseL ("%d/" ++ "%E%Y") "25/2025" None noon = ParseL ("%d/" ++ "%Y") "25/2025" None noon /\
  (is_percent "Y" = false ->
   ParseL ("%d/" ++ "%EY") "25/2025" None noon = ParseL ("%d/" ++ "%Y") "25/2025" None noon).
Proof.
  apply (X18_parser_prefix_equivalence "%d/" "" "25/2025" "E" "Y" None noon); reflexivity.
Defined.

(** ** X19: formatting a concatenation *)



(** After a format that the loop runs over in whole, the loop goes on with
    what follows. *)
Lemma Gnu_loop_app (t : Time) (loc : Locale) (g : string) :
  forall f, Gnu.complete f = true ->
  forall result,
    Gnu.loop (f ++ g) t loc result
    = match Gnu.loop f t loc result with
      | Some r => Gnu.loop g t loc r
      | None => None
      end.
Proof.
  induction f as [f IH] using string_length_ind.
  destruct f as [|c f1]; [reflexivity|].
  cbn [Gnu.complete Gnu.loop String.append]. destruct (negb (Gnu.is_percent c)).
  { intros H result. apply IH; [shorter|exact H]. }
  destruct f1 as [|c1 f2]; [discriminate|].
  cbn [String.append]. destruct (Gnu.is_percent c1).
  { intros H result. apply IH; [shorter|exact H]. }
  destruct (Gnu.is_modifier c1).
  - destruct f2 as [|c2 f3]; [discriminate|].
    cbn [String.append]. destruct (Gnu.is_ext c2).
    + destruct f3 as [|c3 f4]; [discriminate|].
      cbn [String.append]. intros H result.
      destruct (Gnu.conv c3 _ _ t loc); [|reflexivity]. apply IH; [shorter|exact H].
    + intros H result.
      destruct (Gnu.conv c2 _ _ t loc); [|reflexivity]. apply IH; [shorter|exact H].
  - destruct (Gnu.is_ext c1).
    + destruct f2 as [|c3 f4]; [discriminate|].
      cbn [String.append]. intros H result.
      destruct (Gnu.conv c3 _ _ t loc); [|reflexivity]. apply IH; [shorter|exact H].
    + intros H result.
      destruct (Gnu.conv c1 _ _ t loc); [|reflexivity]. apply IH; [shorter|exact H].
Qed.






(** ** X20, X21: the padding modifiers *)

Lemma conv_unpadded (c : byte) (t : Time) (loc : Locale) :
  pads c = false ->
  forall pw pc pw' pc', Gnu.conv c pw pc t loc = Gnu.conv c pw' pc' t loc.
Proof.
  destruct c as [[] [] [] [] [] [] [] []]; intros H pw pc pw' pc';
    solve [reflexivity | discriminate H].
Qed.

(** X20.  In the second implementation the modifier [0] is the default:
    after a format the loop runs over in whole, [%0] followed by anything
    but a second modifier gives the output of [%] followed by the same. *)
Theorem X20_zero_modifier_is_default (f rest : string) (c : byte) (t : Time)
  (locale : option Locale) :
  Gnu.complete f = true ->
  Gnu.is_modifier c = false ->
  Gnu.StrftimeL (f ++ String "%" (String "0" (String c rest))) t locale
  = Gnu.StrftimeL (f ++ String "%" (String c rest)) t locale.
Proof.
  intros Hf Hc. unfold Gnu.StrftimeL. rewrite !(Gnu_loop_app _ _ _ f Hf).
  destruct (Gnu.loop f t _ "") as [a|]; [|reflexivity].
  cbn [Gnu.loop Gnu.is_percent Gnu.is_modifier Ascii.eqb Bool.eqb negb orb].
  rewrite Hc.
  assert (Hw : Gnu.padWidth_of c = 2%nat /\ Gnu.padChar_of c = "0"%char).
  { unfold Gnu.is_modifier in Hc. apply orb_false_elim in Hc. destruct Hc as [Hc _].
    apply orb_false_elim in Hc. destruct Hc as [H1 H2].
    unfold Gnu.padWidth_of, Gnu.padChar_of. rewrite H1, H2. split; reflexivity. }
  destruct Hw as [-> ->]. fold (Gnu.is_percent c).
  destruct (Gnu.is_percent c) eqn:Hp; [|reflexivity].
  apply Ascii.eqb_eq in Hp. subst c. reflexivity.
Qed.

Lemma X20_zero_modifier_is_default_witness :
  Gnu.StrftimeL ("at " ++ "%0H:%M") afternoon None
  = Gnu.StrftimeL ("at " ++ "%H:%M") afternoon None.
Proof.
  apply (X20_zero_modifier_is_default "at " ":%M" "H" afternoon None); reflexivity.
Defined.

(** X21.  In the second implementation a padding modifier changes the
    output of the numeric specifiers [C d G g H I j M m S U V W Y y] only:
    before any other specifier (the names, [%e], [%k], [%l], [%s], [%u],
    [%w], the layouts, an unknown character) [%-], [%_] and [%0] give the
    output of the specifier without a modifier. *)
Theorem X21_modifier_ignored (f rest : string) (m c : byte) (t : Time)
  (locale : option Locale) :
  Gnu.complete f = true ->
  Gnu.is_modifier m = true ->
  pads c = false -> Gnu.is_ext c = false -> Gnu.is_modifier c = false ->
  Gnu.StrftimeL (f ++ String "%" (String m (String c rest))) t locale
  = Gnu.StrftimeL (f ++ String "%" (String c rest)) t locale.
Proof.
  intros Hf Hm Hc He Hcm. unfold Gnu.StrftimeL. rewrite !(Gnu_loop_app _ _ _ f Hf).
  destruct (Gnu.loop f t _ "") as [a|]; [|reflexivity].
  cbn [Gnu.loop Gnu.is_percent Ascii.eqb Bool.eqb negb].
  assert (Hmp : Ascii.eqb m "%" = false).
  { destruct (Ascii.eqb_spec m "%"%char) as [->|]; [discriminate Hm|reflexivity]. }
  fold (Gnu.is_percent m) (Gnu.is_percent c). unfold Gnu.is_percent at 1.
  rewrite Hmp, Hm, He, Hcm.
  rewrite (conv_unpadded c t _ Hc (Gnu.padWidth_of m) (Gnu.padChar_of m)
             (Gnu.padWidth_of c) (Gnu.padChar_of c)).
  destruct (Gnu.is_percent c) eqn:Hp; [|rewrite He; reflexivity].
  apply Ascii.eqb_eq in Hp. subst c. reflexivity.
Qed.

Lemma X21_modifier_ignored_witness :
  Gnu.StrftimeL ("" ++ "%-e %B") afternoon None = Gnu.StrftimeL ("" ++ "%e %B") afternoon None.
Proof.
  apply (X21_modifier_ignored "" " %B" "-" "e" afternoon None); reflexivity.
Defined.

(** ** X22: formatInt *)




Lemma all_digits_uint (d : Decimal.uint) :
  all_digits (NilEmpty.string_of_uint d) = true.
Proof. induction d; cbn [NilEmpty.string_of_uint all_digits]; try rewrite IHd; reflexivity. Qed.

Lemma udec_digits (v : Z) :
  all_digits (strconv.udec v) = true /\ (0 < String.length (strconv.udec v))%nat.
Proof.
  unfold strconv.udec. destruct (N.to_uint (Z.to_N v)) eqn:E;
    cbn [NilZero.string_of_uint];
    try (split; [apply (all_digits_uint (_ u))|cbn; lia]).
  split; [reflexivity|cbn; lia].
Qed.


(** ** X23: the two implementations of StrftimeL *)

Lemma zero_padded_same (w : nat) (v : Z) :
  0 <= v -> Gnu.formatInt v w "0" = fmt.Sprintf_0d w v.
Proof.
  intros Hv. unfold Gnu.formatInt, fmt.Sprintf_0d, strconv.Itoa. cbv zeta.
  rewrite (proj2 (Z.ltb_ge v 0) Hv).
  destruct (w <=? String.length (strconv.udec v))%nat eqn:E; [|reflexivity].
  apply Nat.leb_le in E.
  replace (w - String.length (strconv.udec v))%nat with 0%nat by lia. reflexivity.
Qed.

(** At width 2 the sign has no room to move. *)
Lemma zero_padded_two (v : Z) : Gnu.formatInt v 2 "0" = fmt.Sprintf_0d 2 v.
Proof.
  destruct (Z.ltb_spec v 0) as [Hneg|Hv]; [|apply zero_padded_same; exact Hv].
  unfold Gnu.formatInt, fmt.Sprintf_0d, strconv.Itoa. cbv zeta.
  rewrite (proj2 (Z.ltb_lt v 0) Hneg).
  destruct (udec_digits (- v)) as [_ Hn].
  replace (2 - 1 - String.length (strconv.udec (- v)))%nat with 0%nat by lia.
  replace (2 <=? String.length ("-" ++ strconv.udec (- v)))%nat with true; [reflexivity|].
  symmetry. apply Nat.leb_le. cbn [String.append String.length]. lia.
Qed.

Lemma rune_char_byte (c : byte) :
  byte_val c < 128 -> Posix.rune_char (byte_val c) = Some c.
Proof.
  intros H. pose proof (byte_val_range c) as R. unfold Posix.rune_char.
  rewrite (proj2 (Z.leb_le 0 _)) by lia. rewrite (proj2 (Z.ltb_lt _ 128)) by lia.
  cbn [andb]. rewrite byte_of_val. reflexivity.
Qed.

Lemma month_guard (names : list string) (t : Time) :
  List.length names = 12%nat -> 1 <= Month t <= 12 ->
  (0 <=? Month t - 1) && (Month t - 1 <? Z.of_nat (List.length names)) = true.
Proof.
  intros Hl Hm. rewrite Hl. apply andb_true_intro.
  split; [apply Z.leb_le|apply Z.ltb_lt]; lia.
Qed.

Lemma shared_conv (c : byte) (t : Time) (loc : Locale) :
  shared c = true ->
  locale_ok loc -> calendar_ok t -> 0 <= Year t -> 0 <= YearDay t ->
  Posix.conv (byte_val c) t loc = Gnu.conv c 2 "0" t loc.
Proof.
  intros Hs (_ & _ & HMF & HMA) (_ & Hm) Hy Hj.
  destruct c as [[] [] [] [] [] [] [] []]; try discriminate Hs;
    unfold Posix.conv; rewrite rune_char_byte by (vm_compute; reflexivity);
    cbv beta iota delta [Gnu.conv]; cbv zeta;
    try reflexivity;
    try (rewrite month_guard by assumption; reflexivity);
    unfold Gnu.padded; cbn [Nat.ltb Nat.leb];
    try (rewrite zero_padded_two; reflexivity);
    try (rewrite zero_padded_same by assumption; reflexivity).
Qed.

Lemma shared_facts (c : byte) :
  shared c = true ->
  byte_val c < 128 /\ Gnu.is_modifier c = false /\ Gnu.is_ext c = false /\
  Gnu.padWidth_of c = 2%nat /\ Gnu.padChar_of c = "0"%char /\
  Posix.is_ext (byte_val c) = false.
Proof.
  destruct c as [[] [] [] [] [] [] [] []]; intros H; try discriminate H;
    repeat split; vm_compute; reflexivity.
Qed.

Lemma runes_cons_ascii (c : byte) (s : string) :
  byte_val c < 128 -> utf8.runes (String c s) = byte_val c :: utf8.runes s.
Proof.
  intros H. rewrite runes_step. cbv zeta.
  rewrite (proj2 (Z.ltb_lt _ 128) H). reflexivity.
Qed.

Lemma loops_agree (t : Time) (loc : Locale) :
  locale_ok loc -> calendar_ok t -> 0 <= Year t -> 0 <= YearDay t ->
  forall f, common f = true ->
  forall b, Posix.loop (utf8.runes f) t loc b = Gnu.loop f t loc b.
Proof.
  intros Hl Hc Hy Hj. induction f as [f IH] using string_length_ind.
  destruct f as [|c f1]; intros H b; [reflexivity|].
  cbn [common] in H. destruct (Gnu.is_percent c) eqn:Ep.
  - apply Ascii.eqb_eq in Ep. subst c.
    destruct f1 as [|c1 f2]; [discriminate H|].
    rewrite runes_cons_ascii by (vm_compute; reflexivity).
    destruct (Gnu.is_ext c1) eqn:Ee.
    + destruct f2 as [|c2 f3]; [discriminate H|].
      apply andb_prop in H. destruct H as [H H3].
      apply andb_prop in H. destruct H as [H2 Hp2]. apply negb_true_iff in Hp2.
      destruct (shared_facts c2 H2) as (Ha & _).
      assert (Hruns : utf8.runes (String c1 (String c2 f3))
                      = byte_val c1 :: byte_val c2 :: utf8.runes f3).
      { unfold Gnu.is_ext in Ee. apply orb_prop in Ee.
        destruct Ee as [E|E]; apply Ascii.eqb_eq in E; subst c1;
          rewrite runes_cons_ascii by (vm_compute; reflexivity);
          rewrite runes_cons_ascii by exact Ha; reflexivity. }
      rewrite Hruns. cbn [Posix.loop Gnu.loop].
      change (Posix.is_percent (byte_val "%")) with true.
      change (negb (Gnu.is_percent "%")) with false. cbv iota.
      rewrite percent_rune. fold (Gnu.is_percent c2). rewrite Hp2.
      rewrite (shared_conv c2 t loc H2 Hl Hc Hy Hj).
      unfold Gnu.is_ext in Ee. apply orb_prop in Ee.
      destruct Ee as [E|E]; apply Ascii.eqb_eq in E; subst c1;
        (change (Posix.is_ext (byte_val _)) with true;
         cbn [Gnu.is_percent Gnu.is_modifier Gnu.is_ext Gnu.padWidth_of Gnu.padChar_of
              Ascii.eqb Bool.eqb orb];
         destruct (Gnu.conv c2 2 "0" t loc); [|reflexivity];
         apply IH; [shorter|exact H3]).
    + apply andb_prop in H. destruct H as [H1 H2].
      destruct (shared_facts c1 H1) as (Ha & Hm & _ & Hw & Hp & Hx).
      rewrite runes_cons_ascii by exact Ha. cbn [Posix.loop Gnu.loop].
      change (Posix.is_percent (byte_val "%")) with true.
      change (negb (Gnu.is_percent "%")) with false. cbv iota.
      rewrite Hx, Hm, Ee, Hw, Hp. rewrite (shared_conv c1 t loc H1 Hl Hc Hy Hj).
      destruct (Gnu.is_percent c1) eqn:Ep1.
      * apply Ascii.eqb_eq in Ep1. subst c1.
        change (Gnu.conv "%" 2 "0" t loc) with (Some "%"%string).
        apply IH; [shorter|exact H2].
      * destruct (Gnu.conv c1 2 "0" t loc); [|reflexivity].
        apply IH; [shorter|exact H2].
  - apply andb_prop in H. destruct H as [Ha H1]. apply Z.ltb_lt in Ha.
    rewrite runes_cons_ascii by exact Ha. cbn [Posix.loop Gnu.loop].
    rewrite percent_rune. fold (Gnu.is_percent c). rewrite Ep. cbn [negb].
    rewrite encode_ascii by exact Ha. apply IH; [shorter|exact H1].
Qed.

(** X23.  The two implementations of [StrftimeL] agree on the formats
    written with what both have: for a format made of ASCII literals and of
    the specifiers [A a B b h C c D d e H I M S p y Y m j F Z z %], with or
    without a prefix [E] or [O], no directive being cut short, they return
    the same output for every time whose year and day of the year are not
    negative (with a locale of 7 weekday and 12 month names and a calendar
    that answers a weekday from 0 to 6 and a month from 1 to 12). *)
Theorem X23_implementations_agree (f : string) (t : Time) (locale : option Locale) :
  common f = true ->
  locale_ok (locale_or_default locale) -> calendar_ok t ->
  0 <= Year t -> 0 <= YearDay t ->
  Posix.StrftimeL f t locale = Gnu.StrftimeL f t locale.
Proof.
  intros Hf Hl Hc Hy Hj. unfold Posix.StrftimeL, Gnu.StrftimeL.
  apply loops_agree; assumption.
Qed.

Lemma X23_implementations_agree_witness :
  Posix.StrftimeL "%A, %B %d, %Y at %I:%M %p" afternoon None
  = Gnu.StrftimeL "%A, %B %d, %Y at %I:%M %p" afternoon None.
Proof.
  apply (X23_implementations_agree "%A, %B %d, %Y at %I:%M %p" afternoon None).
  - reflexivity.
  - exact default_locale_ok.
  - unfold calendar_ok. cbn. lia.
  - cbn. lia.
  - cbn. lia.
Defined.

(** ** X24: the year below 0 *)

(** X24.  For a year from -99 to -1 the two implementations of [StrftimeL]
    part on [%Y]: the first writes the sign in front of the zeros
    ([fmt.Sprintf("%04d")], as in [-005]), the second the zeros in front of
    the sign ([formatInt], as in [00-5]). *)
Theorem X24_negative_year_differs (t : Time) (locale : option Locale) :
  -100 < Year t < 0 ->
  exists digits zeros,
    Posix.StrftimeL "%Y" t locale = Some (String "-" (String "0" digits)) /\
    Gnu.StrftimeL "%Y" t locale = Some (String "0" zeros) /\
    Posix.StrftimeL "%Y" t locale <> Gnu.StrftimeL "%Y" t locale.
Proof.
  intros Hy.
  assert (HP : Posix.StrftimeL "%Y" t locale = Some (fmt.Sprintf_0d 4 (Year t))).
  { unfold Posix.StrftimeL. eval_runes. reflexivity. }
  assert (HG : Gnu.StrftimeL "%Y" t locale = Some (Gnu.formatInt (Year t) 4 "0")).
  { reflexivity. }
  rewrite HP, HG.
  set (p := fun k : Z =>
    (k =? 0) ||
    match fmt.Sprintf_0d 4 (- k), Gnu.formatInt (- k) 4 "0" with
    | String "-" (String "0" _), String "0" _ => true
    | _, _ => false
    end).
  assert (Hall : forall k, 0 <= k < 100 -> p k = true).
  { apply below_forallb. vm_compute. reflexivity. }
  specialize (Hall (- Year t) ltac:(lia)). unfold p in Hall.
  rewrite Z.opp_involutive in Hall.
  rewrite (proj2 (Z.eqb_neq (- Year t) 0)) in Hall by lia. cbn [orb] in Hall.
  destruct (fmt.Sprintf_0d 4 (Year t)) as [|a [|b digits]]; try discriminate Hall;
    destruct a as [[] [] [] [] [] [] [] []]; try discriminate Hall;
    destruct b as [[] [] [] [] [] [] [] []]; try discriminate Hall.
  destruct (Gnu.formatInt (Year t) 4 "0") as [|a zeros]; try discriminate Hall;
    destruct a as [[] [] [] [] [] [] [] []]; try discriminate Hall.
  exists digits, zeros. split; [reflexivity|]. split; [reflexivity|]. discriminate.
Qed.

Lemma X24_negative_year_differs_witness :
  exists digits zeros,
    Posix.StrftimeL "%Y"
      (mkTime (-5) 3 1 0 0 0 0 60 (-5, 9) 0 (fun _ => ""%string) UTC) None
    = Some (String "-" (String "0" digits)) /\
    Gnu.StrftimeL "%Y"
      (mkTime (-5) 3 1 0 0 0 0 60 (-5, 9) 0 (fun _ => ""%string) UTC) None
    = Some (String "0" zeros) /\
    Posix.StrftimeL "%Y"
      (mkTime (-5) 3 1 0 0 0 0 60 (-5, 9) 0 (fun _ => ""%string) UTC) None
    <> Gnu.StrftimeL "%Y"
      (mkTime (-5) 3 1 0 0 0 0 60 (-5, 9) 0 (fun _ => ""%string) UTC) None.
Proof.
  apply (X24_negative_year_differs
           (mkTime (-5) 3 1 0 0 0 0 60 (-5, 9) 0 (fun _ => ""%string) UTC) None).
  cbn. lia.
Defined.

(** ** X25: formats that leave nothing to the clock *)

Ltac cover_done :=
  first
    [ intros H; discriminate H
    | intros H; injection H as <- <-; eexists; split; [reflexivity|];
      split;
      [ match goal with
        | Hf : same_flags _ _ |- _ =>
            destruct Hf as (? & ? & ?); unfold same_flags; cbn; auto
        end
      | intros f [Hf|Hf]; destruct f; cbn in Hf |- *;
        solve [ discriminate Hf | exact Hf | reflexivity ] ] ].

Lemma exec_covers (d : directive) (s : string) (locale : Locale)
  (r1 r2 : parseResult) (j : nat) (r1' : parseResult) (j1 : nat) :
  same_flags r1 r2 ->
  exec d s locale r1 j = Value (r1', j1) ->
  exists r2',
    exec d s locale r2 j = Value (r2', j1) /\
    same_flags r1' r2' /\
    forall f, covers d f = true \/ field_of f r1 = field_of f r2 ->
              field_of f r1' = field_of f r2'.
Proof.
  intros Hfl. destruct d as [c|c|e]; cbn [exec covers].
  - unfold parseLiteral.
    destruct ((String.length s <=? j)%nat || negb (byte_is s j c)).
    + destruct (String.get j s); discriminate.
    + cover_done.
  - destruct (spec_cases c) as [Hin|Hun].
    + unfold specifiers in Hin. cbn [In] in Hin.
      repeat (destruct Hin as [<-|Hin]; [cbn [parseSpec]; repeat scrutinee_step; cover_done|]).
      contradiction.
    + rewrite Hun. discriminate.
  - discriminate.
Qed.

Lemma run_covers (s : string) (locale : Locale) :
  forall ds r1 r2 j r1' j1,
    same_flags r1 r2 ->
    run ds s locale r1 j = Value (r1', j1) ->
    exists r2',
      run ds s locale r2 j = Value (r2', j1) /\
      same_flags r1' r2' /\
      forall f, existsb (fun d => covers d f) ds = true \/ field_of f r1 = field_of f r2 ->
                field_of f r1' = field_of f r2'.
Proof.
  induction ds as [|d ds IH]; intros r1 r2 j r1' j1 Hfl H.
  - cbn [run] in H. injection H as <- <-. exists r2. split; [reflexivity|].
    split; [exact Hfl|]. intros f [Hf|Hf]; [discriminate Hf|exact Hf].
  - cbn [run] in H |- *.
    destruct (exec d s locale r1 j) as [[ra ja]| |] eqn:E; try discriminate H.
    cbn [bind fst snd] in H.
    destruct (exec_covers d s locale r1 r2 j ra ja Hfl E) as (rb & Eb & Hflb & Hcov).
    destruct (IH ra rb ja r1' j1 Hflb H) as (r2' & Hrun & Hfl' & Hcov').
    exists r2'. rewrite Eb. cbn [bind fst snd]. split; [exact Hrun|].
    split; [exact Hfl'|]. intros f Hf. apply Hcov'.
    cbn [existsb] in Hf. destruct Hf as [Hf|Hf].
    + apply orb_prop in Hf. destruct Hf as [Hf|Hf]; [|left; exact Hf].
      right. apply Hcov. left. exact Hf.
    + right. apply Hcov. right. exact Hf.
Qed.

Lemma result_ext (r1 r2 : parseResult) :
  same_flags r1 r2 -> (forall f, field_of f r1 = field_of f r2) -> r1 = r2.
Proof.
  intros (H1 & H2 & H3) Hf. destruct r1, r2. cbn in H1, H2, H3.
  pose proof (Hf FYear) as Hy. pose proof (Hf FMonth) as Hmo.
  pose proof (Hf FDay) as Hd. pose proof (Hf FHour) as Hh.
  pose proof (Hf FMinute) as Hmi. pose proof (Hf FSecond) as Hs.
  cbn in Hy, Hmo, Hd, Hh, Hmi, Hs. congruence.
Qed.

(** X25.  A format that mentions all six fields leaves nothing to the
    clock: when specifiers of the format assign the year, the month, the
    day, the hour, the minute and the second, [ParseL] returns the same
    time, the same error or the same panic at every moment [time.Now()]
    gives in its body, the location of the moment being the same. *)
Theorem X25_full_format_ignores_clock (format s : string) (locale : option Locale)
  (base1 base2 : Time) :
  (forall f, mentions format f = true) ->
  Location base1 = Location base2 ->
  ParseL format s locale base1 = ParseL format s locale base2.
Proof.
  intros Hall Hloc. unfold ParseL. rewrite !walk_scan.
  destruct (run_shape s (locale_or_default locale) (scan format) 0)
    as [(us & j' & Hrun & _ & _)|[(e0 & He)|Hp]].
  - destruct (run_covers s (locale_or_default locale) (scan format)
                (initial base1) (initial base2) 0 _ _
                ltac:(unfold same_flags; cbn; auto) (Hrun (initial base1)))
      as (r2' & Hrun2 & Hfl & Hcov).
    rewrite Hrun2, Hrun. cbn [bind fst snd].
    assert (Heq : apply_updates us (initial base1) = r2').
    { apply result_ext; [exact Hfl|]. intros f. apply Hcov. left.
      exact (Hall f). }
    rewrite Heq. unfold finish. rewrite Hloc. reflexivity.
  - rewrite !He. reflexivity.
  - rewrite !Hp. reflexivity.
Qed.

Lemma X25_full_format_ignores_clock_witness :
  ParseL "%F %H:%M:%S" "2025-02-25 15:30:45" None midnight
  = ParseL "%F %H:%M:%S" "2025-02-25 15:30:45" None noon.
Proof.
  apply (X25_full_format_ignores_clock "%F %H:%M:%S" "2025-02-25 15:30:45" None midnight noon).
  - intros f. destruct f; reflexivity.
  - reflexivity.
Defined.

(** ** X26: the month names of the default locale *)



(** ** X3: literals in UTF-8 *)

(** Bits that do not overlap add up. *)
Lemma lor_shiftl_add (x y n : Z) :
  0 <= n -> 0 <= y < 2 ^ n -> Z.lor (Z.shiftl x n) y = x * 2 ^ n + y.
Proof.
  intros Hn Hy.
  assert (Hland : Z.land (Z.shiftl x n) y = 0).
  { apply Z.bits_inj'. intros m Hm. rewrite Z.land_spec, Z.bits_0.
    destruct (Z.ltb_spec m n) as [Hlt|Hge].
    - rewrite Z.shiftl_spec_low by exact Hlt. reflexivity.
    - destruct (Z.eqb_spec y 0) as [->|Hy0].
      + rewrite Z.bits_0. apply andb_false_r.
      + rewrite (Z.bits_above_log2 y m); [apply andb_false_r|lia|].
        assert (Z.log2 y < n) by (apply Z.log2_lt_pow2; lia). lia. }
  pose proof (Z.add_lor_land (Z.shiftl x n) y) as H.
  rewrite Hland in H. rewrite Z.shiftl_mul_pow2 in H |- * by exact Hn. lia.
Qed.

Lemma low6_mod (b : Z) : utf8.low6 b = b mod 64.
Proof. unfold utf8.low6. change 63 with (Z.ones 6). apply Z.land_ones. lia. Qed.

Lemma cont_range (b : Z) : utf8.cont b = true -> 128 <= b <= 191.
Proof.
  unfold utf8.cont. intros H. apply andb_prop in H. destruct H as [H1 H2].
  apply Z.leb_le in H1. apply Z.leb_le in H2. lia.
Qed.

Lemma tail_byte_val (r k b : Z) :
  0 <= r -> 0 <= k -> 128 <= b <= 191 -> (r / 2 ^ k) mod 64 = b - 128 ->
  Z.lor 128 (utf8.low6 (Z.shiftr r k)) = b.
Proof.
  intros Hr Hk Hb H. rewrite low6_mod, Z.shiftr_div_pow2 by exact Hk. rewrite H.
  change 128 with (Z.shiftl 2 6) at 1. rewrite lor_shiftl_add by lia. lia.
Qed.

Lemma decode2 (b0 b1 : Z) :
  194 <= b0 < 224 -> 128 <= b1 <= 191 ->
  Z.lor (Z.shiftl (Z.land b0 31) 6) (utf8.low6 b1) = (b0 - 192) * 64 + (b1 - 128).
Proof.
  intros H0 H1. rewrite low6_mod. change 31 with (Z.ones 5).
  rewrite Z.land_ones by lia. rewrite lor_shiftl_add.
  - change (2 ^ 5) with 32. change (2 ^ 6) with 64.
    Z.div_mod_to_equations. lia.
  - lia.
  - change (2 ^ 6) with 64. Z.div_mod_to_equations. lia.
Qed.

Lemma decode3 (b0 b1 b2 : Z) :
  224 <= b0 < 240 -> 128 <= b1 <= 191 -> 128 <= b2 <= 191 ->
  Z.lor (Z.shiftl (Z.land b0 15) 12)
    (Z.lor (Z.shiftl (utf8.low6 b1) 6) (utf8.low6 b2))
  = (b0 - 224) * 4096 + (b1 - 128) * 64 + (b2 - 128).
Proof.
  intros H0 H1 H2. rewrite !low6_mod. change 15 with (Z.ones 4).
  rewrite Z.land_ones by lia.
  rewrite (lor_shiftl_add (b1 mod 64) (b2 mod 64) 6).
  2: lia. 2: change (2 ^ 6) with 64; Z.div_mod_to_equations; lia.
  rewrite lor_shiftl_add.
  - change (2 ^ 4) with 16. change (2 ^ 6) with 64. change (2 ^ 12) with 4096.
    Z.div_mod_to_equations. lia.
  - lia.
  - change (2 ^ 6) with 64. change (2 ^ 12) with 4096. Z.div_mod_to_equations. lia.
Qed.

Lemma decode4 (b0 b1 b2 b3 : Z) :
  240 <= b0 <= 244 -> 128 <= b1 <= 191 -> 128 <= b2 <= 191 -> 128 <= b3 <= 191 ->
  Z.lor (Z.shiftl (Z.land b0 7) 18)
    (Z.lor (Z.shiftl (utf8.low6 b1) 12)
       (Z.lor (Z.shiftl (utf8.low6 b2) 6) (utf8.low6 b3)))
  = (b0 - 240) * 262144 + (b1 - 128) * 4096 + (b2 - 128) * 64 + (b3 - 128).
Proof.
  intros H0 H1 H2 H3. rewrite !low6_mod. change 7 with (Z.ones 3).
  rewrite Z.land_ones by lia.
  rewrite (lor_shiftl_add (b2 mod 64) (b3 mod 64) 6).
  2: lia. 2: change (2 ^ 6) with 64; Z.div_mod_to_equations; lia.
  rewrite (lor_shiftl_add (b1 mod 64) _ 12).
  2: lia.
  2: change (2 ^ 6) with 64; change (2 ^ 12) with 4096; Z.div_mod_to_equations; lia.
  rewrite lor_shiftl_add.
  - change (2 ^ 3) with 8. change (2 ^ 6) with 64. change (2 ^ 12) with 4096.
    change (2 ^ 18) with 262144. Z.div_mod_to_equations. lia.
  - lia.
  - change (2 ^ 6) with 64. change (2 ^ 12) with 4096. change (2 ^ 18) with 262144.
    Z.div_mod_to_equations. lia.
Qed.

Lemma lead_byte_val (l m r k b : Z) :
  0 <= m -> 0 <= k -> 0 <= r -> 0 <= b - l * 2 ^ m < 2 ^ m ->
  r / 2 ^ k = b - l * 2 ^ m ->
  Z.lor (Z.shiftl l m) (Z.shiftr r k) = b.
Proof.
  intros Hm Hk Hr Hb H. rewrite Z.shiftr_div_pow2 by exact Hk. rewrite H.
  rewrite lor_shiftl_add by lia. lia.
Qed.

Ltac decide_tests :=
  repeat match goal with
  | |- context [(?a <=? ?b)] =>
      first [ rewrite (proj2 (Z.leb_le a b)) by lia
            | rewrite (proj2 (Z.leb_gt a b)) by lia ]
  | |- context [(?a <? ?b)] =>
      first [ rewrite (proj2 (Z.ltb_lt a b)) by lia
            | rewrite (proj2 (Z.ltb_ge a b)) by lia ]
  end; cbn [andb orb].

Ltac by_division :=
  change (2 ^ 0) with 1; change (2 ^ 3) with 8; change (2 ^ 4) with 16;
  change (2 ^ 5) with 32; change (2 ^ 6) with 64; change (2 ^ 12) with 4096;
  change (2 ^ 18) with 262144; Z.div_mod_to_equations; lia.

(** Encoding what two, three and four well-formed bytes decode to gives
    the bytes back. *)
Lemma encode_decode2 (c0 c1 : byte) (r : Z) :
  194 <= byte_val c0 < 224 -> 128 <= byte_val c1 <= 191 ->
  r = (byte_val c0 - 192) * 64 + (byte_val c1 - 128) ->
  utf8.EncodeRune r = String c0 (String c1 "") /\ 128 <= r.
Proof.
  intros H0 H1 Hr. split; [|lia]. unfold utf8.EncodeRune. decide_tests.
  unfold utf8.tail_byte.
  change 192 with (Z.shiftl 6 5).
  rewrite (lead_byte_val 6 5 r 6 (byte_val c0)) by (try lia; by_division).
  rewrite (tail_byte_val r 0 (byte_val c1)) by (try lia; by_division).
  rewrite !byte_of_val. reflexivity.
Qed.

Lemma encode_decode3 (c0 c1 c2 : byte) (r : Z) :
  224 <= byte_val c0 < 240 -> 128 <= byte_val c1 <= 191 -> 128 <= byte_val c2 <= 191 ->
  (byte_val c0 = 224 -> 160 <= byte_val c1) ->
  (byte_val c0 = 237 -> byte_val c1 <= 159) ->
  r = (byte_val c0 - 224) * 4096 + (byte_val c1 - 128) * 64 + (byte_val c2 - 128) ->
  utf8.EncodeRune r = String c0 (String c1 (String c2 "")) /\ 128 <= r.
Proof.
  intros H0 H1 H2 Hlo Hhi Hr. split; [|lia]. unfold utf8.EncodeRune.
  assert (Hsur : r < 55296 \/ 57343 < r) by lia.
  destruct Hsur; decide_tests; unfold utf8.encode3, utf8.tail_byte.
  all: change 224 with (Z.shiftl 14 4).
  all: rewrite (lead_byte_val 14 4 r 12 (byte_val c0)) by (try lia; by_division).
  all: rewrite (tail_byte_val r 6 (byte_val c1)) by (try lia; by_division).
  all: rewrite (tail_byte_val r 0 (byte_val c2)) by (try lia; by_division).
  all: rewrite !byte_of_val; reflexivity.
Qed.

Lemma encode_decode4 (c0 c1 c2 c3 : byte) (r : Z) :
  240 <= byte_val c0 <= 244 -> 128 <= byte_val c1 <= 191 ->
  128 <= byte_val c2 <= 191 -> 128 <= byte_val c3 <= 191 ->
  (byte_val c0 = 240 -> 144 <= byte_val c1) ->
  (byte_val c0 = 244 -> byte_val c1 <= 143) ->
  r = (byte_val c0 - 240) * 262144 + (byte_val c1 - 128) * 4096
      + (byte_val c2 - 128) * 64 + (byte_val c3 - 128) ->
  utf8.EncodeRune r = String c0 (String c1 (String c2 (String c3 ""))) /\ 128 <= r.
Proof.
  intros H0 H1 H2 H3 Hlo Hhi Hr. split; [|lia]. unfold utf8.EncodeRune. decide_tests.
  unfold utf8.tail_byte.
  change 240 with (Z.shiftl 30 3).
  rewrite (lead_byte_val 30 3 r 18 (byte_val c0)) by (try lia; by_division).
  rewrite (tail_byte_val r 12 (byte_val c1)) by (try lia; by_division).
  rewrite (tail_byte_val r 6 (byte_val c2)) by (try lia; by_division).
  rewrite (tail_byte_val r 0 (byte_val c3)) by (try lia; by_division).
  rewrite !byte_of_val. reflexivity.
Qed.

Lemma Posix_loop_literals (t : Time) (locale : Locale) :
  forall f, well_formed f = true -> no_percent f = true ->
  forall b, Posix.loop (utf8.runes f) t locale b = Some (b ++ f).
Proof.
  assert (Hstep : forall r rs b, 128 <= r ->
            Posix.loop (r :: rs) t locale b
            = Posix.loop rs t locale (b ++ utf8.EncodeRune r)).
  { intros r rs b Hr. cbn [Posix.loop]. unfold Posix.is_percent.
    rewrite (proj2 (Z.eqb_neq r 37)) by lia. reflexivity. }
  induction f as [f IH] using string_length_ind.
  destruct f as [|c0 s1]; intros Hw Hp b.
  { cbn. rewrite append_empty. reflexivity. }
  rewrite runes_step. cbn [well_formed] in Hw. cbv zeta in Hw |- *.
  cbn [no_percent] in Hp. apply andb_prop in Hp. destruct Hp as [Hp0 Hp1].
  pose proof (byte_val_range c0) as R0.
  destruct (Z.ltb_spec (byte_val c0) 128) as [Ha|Ha].
  { cbn [Posix.loop]. rewrite percent_rune. apply negb_true_iff in Hp0. rewrite Hp0.
    rewrite encode_ascii by exact Ha.
    rewrite (IH s1) by (try shorter; assumption). rewrite append_assoc. reflexivity. }
  destruct ((byte_val c0 <? 194) || (244 <? byte_val c0)) eqn:E0; [discriminate Hw|].
  apply orb_false_elim in E0. destruct E0 as [E1 E2].
  apply Z.ltb_ge in E1. apply Z.ltb_ge in E2.
  destruct (Z.ltb_spec (byte_val c0) 224) as [H2|H2].
  { destruct s1 as [|c1 s2]; [discriminate Hw|].
    apply andb_prop in Hw. destruct Hw as [Hc1 Hw]. rewrite Hc1.
    apply cont_range in Hc1.
    cbn [no_percent] in Hp1. apply andb_prop in Hp1. destruct Hp1 as [_ Hp2].
    destruct (encode_decode2 c0 c1 _ ltac:(lia) Hc1
                (decode2 (byte_val c0) (byte_val c1) ltac:(lia) Hc1)) as [He Hr].
    rewrite Hstep by exact Hr. rewrite He.
    rewrite (IH s2) by (try shorter; assumption). rewrite append_assoc. reflexivity. }
  destruct (Z.ltb_spec (byte_val c0) 240) as [H3|H3].
  { destruct s1 as [|c1 [|c2 s3]]; try discriminate Hw.
    apply andb_prop in Hw. destruct Hw as [Hc Hw]. rewrite Hc.
    apply andb_prop in Hc. destruct Hc as [Hc Hc2].
    apply andb_prop in Hc. destruct Hc as [Hlo Hhi].
    apply Z.leb_le in Hlo. apply Z.leb_le in Hhi. apply cont_range in Hc2.
    cbn [no_percent] in Hp1. apply andb_prop in Hp1. destruct Hp1 as [_ Hp2].
    apply andb_prop in Hp2. destruct Hp2 as [_ Hp3].
    assert (Hc1 : 128 <= byte_val c1 <= 191).
    { destruct (byte_val c0 =? 224), (byte_val c0 =? 237); lia. }
    assert (Hl : byte_val c0 = 224 -> 160 <= byte_val c1).
    { intros E. rewrite E in Hlo. exact Hlo. }
    assert (Hh : byte_val c0 = 237 -> byte_val c1 <= 159).
    { intros E. rewrite E in Hhi. exact Hhi. }
    destruct (encode_decode3 c0 c1 c2 _ ltac:(lia) Hc1 Hc2 Hl Hh
                (decode3 (byte_val c0) (byte_val c1) (byte_val c2) ltac:(lia) Hc1 Hc2))
      as [He Hr].
    rewrite Hstep by exact Hr. rewrite He.
    rewrite (IH s3) by (try shorter; assumption). rewrite append_assoc. reflexivity. }
  destruct s1 as [|c1 [|c2 [|c3 s4]]]; try discriminate Hw.
  apply andb_prop in Hw. destruct Hw as [Hc Hw]. rewrite Hc.
  apply andb_prop in Hc. destruct Hc as [Hc Hc3].
  apply andb_prop in Hc. destruct Hc as [Hc Hc2].
  apply andb_prop in Hc. destruct Hc as [Hlo Hhi].
  apply Z.leb_le in Hlo. apply Z.leb_le in Hhi.
  apply cont_range in Hc2. apply cont_range in Hc3.
  cbn [no_percent] in Hp1. apply andb_prop in Hp1. destruct Hp1 as [_ Hp2].
  apply andb_prop in Hp2. destruct Hp2 as [_ Hp3].
  apply andb_prop in Hp3. destruct Hp3 as [_ Hp4].
  assert (Hc1 : 128 <= byte_val c1 <= 191).
  { destruct (byte_val c0 =? 240), (byte_val c0 =? 244); lia. }
  assert (Hl : byte_val c0 = 240 -> 144 <= byte_val c1).
  { intros E. rewrite E in Hlo. exact Hlo. }
  assert (Hh : byte_val c0 = 244 -> byte_val c1 <= 143).
  { intros E. rewrite E in Hhi. exact Hhi. }
  destruct (encode_decode4 c0 c1 c2 c3 _ ltac:(lia) Hc1 Hc2 Hc3 Hl Hh
              (decode4 (byte_val c0) (byte_val c1) (byte_val c2) (byte_val c3)
                 ltac:(lia) Hc1 Hc2 Hc3)) as [He Hr].
  rewrite Hstep by exact Hr. rewrite He.
  rewrite (IH s4) by (try shorter; assumption). rewrite append_assoc. reflexivity.
Qed.

(** X3.  Formatting a format that holds no percent sign returns it
    unchanged: the second implementation for every sequence of bytes, the
    first, which decodes the format to runes and encodes each, for every
    well-formed UTF-8 string. *)
Theorem X3_format_without_percent (f : string) (t : Time) (locale : option Locale) :
  no_percent f = true ->
  Gnu.StrftimeL f t locale = Some f /\
  (well_formed f = true -> Posix.StrftimeL f t locale = Some f).
Proof.
  intros Hp. split.
  - unfold Gnu.StrftimeL. rewrite Gnu_loop_literals by exact Hp. reflexivity.
  - intros Hw. unfold Posix.StrftimeL.
    rewrite (Posix_loop_literals _ _ f Hw Hp ""). reflexivity.
Qed.

Lemma X3_format_without_percent_witness :
  Gnu.StrftimeL year_sign afternoon None = Some year_sign /\
  Posix.StrftimeL year_sign afternoon None = Some year_sign.
Proof.
  destruct (X3_format_without_percent year_sign afternoon None eq_refl) as [HG HP].
  split; [exact HG|apply HP; reflexivity].
Defined.

(** ** X27: the composite specifiers of the parser *)

Lemma literal_after (s : string) (j : nat) (c : byte) (r : parseResult) :
  parseLiteral c s r j
  = if byte_is s j c then Value (r, S j)
    else match String.get j s with
         | Some got => Error (ErrLiteralMismatch j c got)
         | None => Panic
         end.
Proof.
  unfold parseLiteral. destruct (byte_is s j c) eqn:E; cbn [negb].
  - rewrite (proj2 (Nat.leb_gt _ _) (byte_is_lt _ _ _ E)). reflexivity.
  - rewrite orb_true_r. reflexivity.
Qed.

Lemma composite_F (s : string) (locale : Locale) (r : parseResult) (j : nat)
  (x : parseResult * nat) :
  parseSpec "F" s locale r j = Value x <->
  run [Spec "Y"; Literal "-"; Spec "m"; Literal "-"; Spec "d"] s locale r j = Value x.
Proof.
  cbn [run exec parseSpec].
  destruct (parseFixedInt s j 4) as [[v1 j1] e1]. cbn [bind fst snd].
  rewrite literal_after.
  destruct (byte_is s j1 "-"); cbn [negb bind fst snd].
  2:{ destruct (String.get j1 s); split; discriminate. }
  destruct (parseFixedInt s (S j1) 2) as [[v2 j2] e2]. cbn [bind fst snd].
  rewrite literal_after.
  destruct (byte_is s j2 "-"); cbn [negb bind fst snd].
  2:{ destruct (String.get j2 s); split; discriminate. }
  destruct (parseFixedInt s (S j2) 2) as [[v3 j3] e3]. cbn [bind fst snd].
  split; auto.
Qed.

Lemma composite_D (s : string) (locale : Locale) (r : parseResult) (j : nat)
  (x : parseResult * nat) :
  parseSpec "D" s locale r j = Value x <->
  run [Spec "m"; Literal "/"; Spec "d"; Literal "/"; Spec "y"] s locale r j = Value x.
Proof.
  cbn [run exec parseSpec].
  destruct (parseFixedInt s j 2) as [[v1 j1] e1]. cbn [bind fst snd].
  rewrite literal_after.
  destruct (byte_is s j1 "/"); cbn [negb bind fst snd].
  2:{ destruct (String.get j1 s); split; discriminate. }
  destruct (parseFixedInt s (S j1) 2) as [[v2 j2] e2]. cbn [bind fst snd].
  rewrite literal_after.
  destruct (byte_is s j2 "/"); cbn [negb bind fst snd].
  2:{ destruct (String.get j2 s); split; discriminate. }
  destruct (parseFixedInt s (S j2) 2) as [[v3 j3] e3]. cbn [bind fst snd].
  split; auto.
Qed.

Lemma bind_value_iff {A B : Type} (m1 m2 : outcome A) (k1 k2 : A -> outcome B) (d : B) :
  (forall x, m1 = Value x <-> m2 = Value x) ->
  (forall a, k1 a = Value d <-> k2 a = Value d) ->
  bind m1 k1 = Value d <-> bind m2 k2 = Value d.
Proof.
  intros H Hk. destruct m1 as [x| |] eqn:E1.
  - rewrite (proj1 (H x) eq_refl). cbn [bind]. apply Hk.
  - destruct m2 as [y| |]; cbn [bind]; try (split; discriminate).
    discriminate (proj2 (H y) eq_refl).
  - destruct m2 as [y| |]; cbn [bind]; try (split; discriminate).
    discriminate (proj2 (H y) eq_refl).
Qed.

Lemma run_single (d : directive) (s : string) (locale : Locale) (r : parseResult)
  (j : nat) (x : parseResult * nat) :
  run [d] s locale r j = Value x <-> exec d s locale r j = Value x.
Proof.
  cbn [run]. destruct (exec d s locale r j) as [[r' j']| |]; cbn [bind fst snd];
    split; auto.
Qed.

(** Directives that come through on the same inputs, with the same
    accumulator and cursor, can stand for one another in a format. *)
Lemma swap_directives (s : string) (locale : Locale) (base : Time)
  (ds1 dsA dsB ds2 : list directive) (d : DateTime) :
  (forall r j x, run dsA s locale r j = Value x <-> run dsB s locale r j = Value x) ->
  bind (run (ds1 ++ dsA ++ ds2) s locale (initial base) 0)
    (fun st => finish s base (fst st) (snd st)) = Value d <->
  bind (run (ds1 ++ dsB ++ ds2) s locale (initial base) 0)
    (fun st => finish s base (fst st) (snd st)) = Value d.
Proof.
  intros H. apply bind_value_iff; [|intros a; split; auto].
  intros x. rewrite (run_app s locale (dsA ++ ds2) ds1), (run_app s locale (dsB ++ ds2) ds1).
  apply bind_value_iff; [intros y; split; auto|].
  intros a. rewrite (run_app s locale ds2 dsA), (run_app s locale ds2 dsB).
  apply bind_value_iff; [apply H|intros b; split; auto].
Qed.

(** X27.  The composite specifiers of [ParseL] accept what their expansions
    accept: after directives that are complete, a format with [%F] returns
    a time exactly when the format with [%Y-%m-%d] in its place does, and
    a format with [%D] exactly when the format with [%m/%d/%y] does, and
    the times are the same.  (Where they fail, the outcomes may differ:
    [%F] and [%D] have errors of their own for the separators.) *)
Theorem X27_composite_specifiers (f1 rest s : string) (locale : option Locale)
  (base : Time) (d : DateTime) :
  well_scanned (scan f1) = true ->
  (ParseL (f1 ++ "%F" ++ rest) s locale base = Value d <->
   ParseL (f1 ++ "%Y-%m-%d" ++ rest) s locale base = Value d) /\
  (ParseL (f1 ++ "%D" ++ rest) s locale base = Value d <->
   ParseL (f1 ++ "%m/%d/%y" ++ rest) s locale base = Value d).
Proof.
  intros Hf. unfold ParseL. rewrite !walk_scan.
  rewrite (scan_app ("%F" ++ rest) f1 Hf), (scan_app ("%Y-%m-%d" ++ rest) f1 Hf),
    (scan_app ("%D" ++ rest) f1 Hf), (scan_app ("%m/%d/%y" ++ rest) f1 Hf).
  change (scan ("%F" ++ rest)) with ([Spec "F"] ++ scan rest)%list.
  change (scan ("%D" ++ rest)) with ([Spec "D"] ++ scan rest)%list.
  change (scan ("%Y-%m-%d" ++ rest))
    with ([Spec "Y"; Literal "-"; Spec "m"; Literal "-"; Spec "d"] ++ scan rest)%list.
  change (scan ("%m/%d/%y" ++ rest))
    with ([Spec "m"; Literal "/"; Spec "d"; Literal "/"; Spec "y"] ++ scan rest)%list.
  split; apply swap_directives; intros r j x; rewrite run_single.
  - apply composite_F.
  - apply composite_D.
Qed.

Lemma X27_composite_specifiers_witness :
  (ParseL ("at " ++ "%F" ++ " %H") "at 2025-02-25 15" None noon
   = Value (Date 2025 2 25 15 34 56 0 UTC) <->
   ParseL ("at " ++ "%Y-%m-%d" ++ " %H") "at 2025-02-25 15" None noon
   = Value (Date 2025 2 25 15 34 56 0 UTC)) /\
  (ParseL ("at " ++ "%D" ++ " %H") "at 2025-02-25 15" None noon
   = Value (Date 2025 2 25 15 34 56 0 UTC) <->
   ParseL ("at " ++ "%m/%d/%y" ++ " %H") "at 2025-02-25 15" None noon
   = Value (Date 2025 2 25 15 34 56 0 UTC)).
Proof.
  apply (X27_composite_specifiers "at " " %H" "at 2025-02-25 15" None noon
           (Date 2025 2 25 15 34 56 0 UTC)).
  reflexivity.
Defined.
